(** * ClassReady client widgets: slide player, game board, PDF viewer

    A shallow embedding of [static/app.js] and of the PDF viewer script.
    Every widget is an immediately-invoked function that closes over a few
    [let] variables and registers DOM event handlers.  The closed-over
    variables together with the DOM nodes a widget writes become a record;
    every handler becomes a function on that record; a session is a list
    of events folded over the handlers.

    Conventions.
    - JavaScript numbers that the scripts only count with (indices, page
      numbers, scores) are [Z]; the scripts never divide them.  Indices
      and page numbers move by one within the length of a list or the
      page count of a document.  Scores grow by the point values of the
      embedded questions, so their additions are the additions of
      doubles: the sum, rounded ([GameBoard.js_add]).
    - A global that may be absent ([window.__SLIDE__], ...) is an [option];
      [None] stands for every falsy value of the global.  A global that
      is present is an object whose list ([pages], [questions]) may be
      missing, as in [{}].
    - A handler that throws is a [Threw] outcome; the state it leaves
      behind is the state at the point of the throw.
    - The DOM nodes named in the scripts are taken to be present (the
      pages that embed a widget's state also carry its markup), except in
      the PDF viewer, whose script tests for each node itself. *)

From stdpp Require Import base option list gmap strings pretty.
From Stdlib Require Import ZArith Lia Ascii.

Local Open Scope string_scope.
Local Open Scope Z_scope.

(** Outcome of running a synchronous piece of script. *)
Inductive outcome (S : Type) : Type :=
| Done (s : S)
| Threw (s : S) (msg : string).
Arguments Done {S} s.
Arguments Threw {S} s msg.

Definition state_of {S : Type} (o : outcome S) : S :=
  match o with Done s | Threw s _ => s end.

Definition threw {S : Type} (o : outcome S) : bool :=
  match o with Done _ => false | Threw _ _ => true end.

(** Result of running a widget's initialiser: it returned at its
    guard, it ran to its end, or it threw.  An initialiser that throws
    does so in its last statements, after it has registered its
    handlers; what those handlers do on the broken state object is
    left out: sessions start from [Started] only. *)
Inductive init_result (S : Type) : Type :=
| Inert
| Started (s : S)
| Crashed (msg : string).
Arguments Inert {S}.
Arguments Started {S} s.
Arguments Crashed {S} msg.

(** ** Slide player *)
Module SlidePlayer.

(** An entry of [slide.pages]: a bare string, an object whose [title]
    and [content] may be missing, or a falsy entry ([null]). *)
Inductive page : Type :=
| PageString (s : string)
| PageObject (title content : option string)
| PageNull.

Record slide_data : Type := { pages : list page }.

(** [window.__SLIDE__] when it is truthy: an object whose [pages] may
    be missing. *)
Record slide_object : Type := { so_pages : option (list page) }.

(** The object that carries the pages of [sd]. *)
Definition slide_with (sd : slide_data) : slide_object :=
  {| so_pages := Some (pages sd) |}.

Record normal_page : Type := { np_title : option string; np_content : option string }.

(** [p || ""] on an optional string. *)
Definition or_empty (o : option string) : string :=
  match o with Some s => s | None => "" end.

Definition normalizePage (p : option page) : normal_page :=
  match p with
  | Some (PageString s) => {| np_title := Some s; np_content := Some "" |}
  | Some (PageObject t c) => {| np_title := t; np_content := c |}
  | Some PageNull | None => {| np_title := Some "Page"; np_content := Some "" |}
  end.

Record state : Type := {
  slide : slide_data;
  idx : Z;
  titleEl : string;
  contentEl : string;
  countEl : string;
  monoEl : string;
  prevBtn_disabled : bool;
  nextBtn_disabled : bool
}.

Definition total (sd : slide_data) : Z := Z.of_nat (length (pages sd)).

(** [slide.pages[idx]]: [undefined] for an index that is not an element. *)
Definition page_at (sd : slide_data) (i : Z) : option page :=
  if bool_decide (0 ≤ i) then pages sd !! Z.to_nat i else None.

Definition render (st : state) : state :=
  let t := total (slide st) in
  let p := normalizePage (page_at (slide st) (idx st)) in
  {| slide := slide st;
     idx := idx st;
     titleEl := or_empty (np_title p);
     contentEl := or_empty (np_content p);
     countEl := pretty (idx st + 1) +:+ "/" +:+ pretty t;
     monoEl := pretty (idx st + 1) +:+ " / " +:+ pretty t;
     prevBtn_disabled := bool_decide (idx st = 0);
     nextBtn_disabled := bool_decide (idx st = t - 1) |}.

Definition set_idx (i : Z) (st : state) : state :=
  {| slide := slide st; idx := i;
     titleEl := titleEl st; contentEl := contentEl st;
     countEl := countEl st; monoEl := monoEl st;
     prevBtn_disabled := prevBtn_disabled st;
     nextBtn_disabled := nextBtn_disabled st |}.

(** The two click handlers. *)
Definition prev (st : state) : state :=
  render (set_idx (Z.max 0 (idx st - 1)) st).

Definition next (st : state) : state :=
  render (set_idx (Z.min (total (slide st) - 1) (idx st + 1)) st).

(** The [keydown] handler; the three tests on [e.key] run in turn. *)
Definition keydown (key : string) (st : state) : state :=
  let st1 := if String.eqb key "ArrowLeft"
             then render (set_idx (Z.max 0 (idx st - 1)) st) else st in
  let st2 := if String.eqb key "ArrowRight"
             then render (set_idx (Z.min (total (slide st1) - 1) (idx st1 + 1)) st1)
             else st1 in
  st2.

(** The variables and nodes before the first [render]. *)
Definition fresh (sd : slide_data) : state :=
  {| slide := sd; idx := 0;
     titleEl := ""; contentEl := ""; countEl := ""; monoEl := "";
     prevBtn_disabled := false; nextBtn_disabled := false |}.

(** The initialiser.  Its last statement is the first [render], whose
    first statement reads [slide.pages.length]: without [pages] it
    throws there, after the listeners were registered and before any
    node was written. *)
Definition initSlidePlayer (w : option slide_object) : init_result state :=
  match w with
  | None => Inert
  | Some o =>
      match so_pages o with
      | None => Crashed "TypeError"
      | Some l => Started (render (fresh {| pages := l |}))
      end
  end.

Inductive event : Type :=
| ClickPrev
| ClickNext
| KeyDown (key : string).

Definition handle (e : event) (st : state) : state :=
  match e with
  | ClickPrev => prev st
  | ClickNext => next st
  | KeyDown k => keydown k st
  end.

Definition run (es : list event) (st : state) : state :=
  foldl (fun s e => handle e s) st es.

Definition in_range (st : state) : Prop :=
  0 ≤ idx st ≤ total (slide st) - 1.

End SlidePlayer.

(** ** Game board *)
Module GameBoard.

(** An entry of [game.questions]: [{q, a, points, type?}]. *)
Record question : Type := {
  qn_q : string;
  qn_a : string;
  qn_points : Z;
  qn_type : option string
}.

Record game_data : Type := { questions : list question }.

(** [window.__GAME__] when it is truthy: an object whose [questions]
    may be missing. *)
Record game_object : Type := { go_questions : option (list question) }.

(** The object that carries the questions of [g]. *)
Definition game_with (g : game_data) : game_object :=
  {| go_questions := Some (questions g) |}.

(** [window.__SCORES__]; either field may be missing. *)
Record scores_data : Type := { sd_scoreA : option Z; sd_scoreB : option Z }.

(** A button of the cards grid, as [renderGrid] builds it. *)
Record card : Type := {
  className : string;
  textContent : string;
  disabled : bool
}.

(** A call of [fetch]: the URL, the method, the content type and the
    two numbers of the JSON body [{scoreA, scoreB}]. *)
Record request : Type := {
  req_url : string;
  req_method : string;
  req_content_type : string;
  req_scoreA : Z;
  req_scoreB : Z
}.

(** [encodeURIComponent] on a string of UTF-8 bytes: the unreserved
    characters stay, every other byte becomes [%XX]. *)
Definition unreserved (c : ascii) : bool :=
  let n := Ascii.N_of_ascii c in
  ((65 <=? n) && (n <=? 90) || (97 <=? n) && (n <=? 122)
   || (48 <=? n) && (n <=? 57))%N
  || existsb (Ascii.eqb c)
       ["-"; "_"; "."; "!"; "~"; "*"; "'"; "("; ")"]%char.

Definition hex_digit (n : N) : ascii :=
  match String.get (N.to_nat n) "0123456789ABCDEF" with
  | Some c => c
  | None => "0"%char
  end.

Fixpoint encodeURIComponent (s : string) : string :=
  match s with
  | EmptyString => EmptyString
  | String c rest =>
      if unreserved c then String c (encodeURIComponent rest)
      else
        let n := Ascii.N_of_ascii c in
        String "%" (String (hex_digit (n / 16)) (String (hex_digit (n mod 16))
          (encodeURIComponent rest)))
  end.

Record state : Type := {
  (* closed-over variables *)
  game : game_data;
  gameId : string;
  scoreA : Z;
  scoreB : Z;
  revealed : gmap nat bool;
  currentIndex : option nat;
  (* DOM nodes the widget writes *)
  scoreAEl : string;
  scoreBEl : string;
  grid : list card;
  qModal_show : bool;
  qBadge_className : string;
  qBadge_text : string;
  qTitle : string;
  qAnswer : string;
  (* the [fetch] calls issued so far, oldest first *)
  sent : list request
}.

Definition set_scores (sa sb : Z) (st : state) : state :=
  {| game := game st; gameId := gameId st; scoreA := sa; scoreB := sb;
     revealed := revealed st; currentIndex := currentIndex st;
     scoreAEl := scoreAEl st; scoreBEl := scoreBEl st; grid := grid st;
     qModal_show := qModal_show st;
     qBadge_className := qBadge_className st; qBadge_text := qBadge_text st;
     qTitle := qTitle st; qAnswer := qAnswer st; sent := sent st |}.

Definition set_revealed (r : gmap nat bool) (st : state) : state :=
  {| game := game st; gameId := gameId st;
     scoreA := scoreA st; scoreB := scoreB st;
     revealed := r; currentIndex := currentIndex st;
     scoreAEl := scoreAEl st; scoreBEl := scoreBEl st; grid := grid st;
     qModal_show := qModal_show st;
     qBadge_className := qBadge_className st; qBadge_text := qBadge_text st;
     qTitle := qTitle st; qAnswer := qAnswer st; sent := sent st |}.

Definition set_currentIndex (c : option nat) (st : state) : state :=
  {| game := game st; gameId := gameId st;
     scoreA := scoreA st; scoreB := scoreB st;
     revealed := revealed st; currentIndex := c;
     scoreAEl := scoreAEl st; scoreBEl := scoreBEl st; grid := grid st;
     qModal_show := qModal_show st;
     qBadge_className := qBadge_className st; qBadge_text := qBadge_text st;
     qTitle := qTitle st; qAnswer := qAnswer st; sent := sent st |}.

Definition set_score_els (ta tb : string) (st : state) : state :=
  {| game := game st; gameId := gameId st;
     scoreA := scoreA st; scoreB := scoreB st;
     revealed := revealed st; currentIndex := currentIndex st;
     scoreAEl := ta; scoreBEl := tb; grid := grid st;
     qModal_show := qModal_show st;
     qBadge_className := qBadge_className st; qBadge_text := qBadge_text st;
     qTitle := qTitle st; qAnswer := qAnswer st; sent := sent st |}.

Definition set_grid (g : list card) (st : state) : state :=
  {| game := game st; gameId := gameId st;
     scoreA := scoreA st; scoreB := scoreB st;
     revealed := revealed st; currentIndex := currentIndex st;
     scoreAEl := scoreAEl st; scoreBEl := scoreBEl st; grid := g;
     qModal_show := qModal_show st;
     qBadge_className := qBadge_className st; qBadge_text := qBadge_text st;
     qTitle := qTitle st; qAnswer := qAnswer st; sent := sent st |}.

Definition set_show (b : bool) (st : state) : state :=
  {| game := game st; gameId := gameId st;
     scoreA := scoreA st; scoreB := scoreB st;
     revealed := revealed st; currentIndex := currentIndex st;
     scoreAEl := scoreAEl st; scoreBEl := scoreBEl st; grid := grid st;
     qModal_show := b;
     qBadge_className := qBadge_className st; qBadge_text := qBadge_text st;
     qTitle := qTitle st; qAnswer := qAnswer st; sent := sent st |}.

Definition set_modal_text (bc bt t ans : string) (st : state) : state :=
  {| game := game st; gameId := gameId st;
     scoreA := scoreA st; scoreB := scoreB st;
     revealed := revealed st; currentIndex := currentIndex st;
     scoreAEl := scoreAEl st; scoreBEl := scoreBEl st; grid := grid st;
     qModal_show := qModal_show st;
     qBadge_className := bc; qBadge_text := bt;
     qTitle := t; qAnswer := ans; sent := sent st |}.

Definition set_sent (l : list request) (st : state) : state :=
  {| game := game st; gameId := gameId st;
     scoreA := scoreA st; scoreB := scoreB st;
     revealed := revealed st; currentIndex := currentIndex st;
     scoreAEl := scoreAEl st; scoreBEl := scoreBEl st; grid := grid st;
     qModal_show := qModal_show st;
     qBadge_className := qBadge_className st; qBadge_text := qBadge_text st;
     qTitle := qTitle st; qAnswer := qAnswer st; sent := l |}.

Definition renderScores (st : state) : state :=
  set_score_els (pretty (scoreA st)) (pretty (scoreB st)) st.

(** The synchronous part of [saveScores]: the arguments of [fetch] are
    built and the request leaves before the first [await]. *)
Definition saveScores (st : state) : state :=
  set_sent (sent st ++
    [ {| req_url := "/api/games/" +:+ encodeURIComponent (gameId st) +:+ "/scores";
         req_method := "POST";
         req_content_type := "application/json";
         req_scoreA := scoreA st;
         req_scoreB := scoreB st |} ]) st.

(** What runs when the promise of [saveScores] settles.  A resolved
    promise has no continuation; a rejected one reaches
    [.catch(() => {})], whose body is empty. *)
Definition saveScores_settled (ok : bool) (st : state) : state :=
  match ok with
  | true => st    (* resolved: [saveScores] returns, nobody waits for it *)
  | false => st   (* rejected: the empty body of the [catch] handler runs *)
  end.

(** [!!revealed[i]] *)
Definition isRev (r : gmap nat bool) (i : nat) : bool :=
  match r !! i with Some b => b | None => false end.

Definition make_card (r : gmap nat bool) (i : nat) : card :=
  {| className := if isRev r i then "cardbtn disabled" else "cardbtn";
     textContent := if isRev r i then "" else pretty (Z.of_nat i + 1);
     disabled := isRev r i |}.

Definition renderGrid (st : state) : state :=
  set_grid (imap (fun i _ => make_card (revealed st) i) (questions (game st))) st.

(** [item.type || "normal"] *)
Definition type_or_normal (t : option string) : string :=
  match t with
  | Some s => if String.eqb s "" then "normal" else s
  | None => "normal"
  end.

(** The badge texts of the script start with a pictograph, left out
    here; the class names and the rest of the text are the script's. *)
Definition openModalFor (index : nat) (st : state) : outcome state :=
  let st := set_currentIndex (Some index) st in
  match questions (game st) !! index with
  | None => Threw st "TypeError"
  | Some item =>
      let type := type_or_normal (qn_type item) in
      let '(bc, bt) :=
        if String.eqb type "trap" then ("pill pink", "Trap!")
        else if String.eqb type "bonus" then ("pill", "Bonus!")
        else ("pill", pretty (qn_points item) +:+ " Points") in
      Done (set_show true (set_modal_text bc bt (qn_q item) (qn_a item) st))
  end.

Definition closeModalMarkRevealed (st : state) : state :=
  let st := match currentIndex st with
            | Some i => set_revealed (<[i := true]> (revealed st)) st
            | None => st
            end in
  renderGrid (set_currentIndex None (set_show false st)).

(** The nearest double of an integer, ties to even: an integer of at
    most 53 bits is a double; a longer one keeps its 53 leading bits,
    rounded.  (Doubles end near 2^1024; the scores of a game do not get
    there.) *)
Definition round_double (z : Z) : Z :=
  let a := Z.abs z in
  if a <=? 2 ^ 53 then z
  else
    let e := Z.log2 a - 52 in
    let q := a / 2 ^ e in
    let r := a mod 2 ^ e in
    let half := 2 ^ (e - 1) in
    let q := if (half <? r) || ((r =? half) && Z.odd q) then q + 1 else q in
    Z.sgn z * (q * 2 ^ e).

(** [a + b] on two integer doubles. *)
Definition js_add (a b : Z) : Z := round_double (a + b).

(** The integers up to which every sum is exact. *)
Definition safe_int (z : Z) : bool := Z.abs z <=? 2 ^ 53.

Definition award (team : string) (pointsOrZero : Z) (st : state) : state :=
  let points := pointsOrZero in
  let st := if String.eqb team "A"
            then set_scores (js_add (scoreA st) points) (scoreB st) st else st in
  let st := if String.eqb team "B"
            then set_scores (scoreA st) (js_add (scoreB st) points) st else st in
  closeModalMarkRevealed (saveScores (renderScores st)).

(** [game.questions[currentIndex]]: with [currentIndex] null the
    property looked up is ["null"], which no array has. *)
Definition current_question (st : state) : option question :=
  match currentIndex st with
  | Some i => questions (game st) !! i
  | None => None
  end.

Definition correct_click (team : string) (st : state) : outcome state :=
  match current_question st with
  | None => Threw st "TypeError"
  | Some item => Done (award team (qn_points item) st)
  end.

Definition aCorrect_click : state -> outcome state := correct_click "A".
Definition aWrong_click (st : state) : state := award "A" 0 st.
Definition bCorrect_click : state -> outcome state := correct_click "B".
Definition bWrong_click (st : state) : state := award "B" 0 st.
Definition skipBtn_click (st : state) : state := closeModalMarkRevealed st.

Definition Object_keys (r : gmap nat bool) : list nat := (map_to_list r).*1.

(** The reset handler; [confirmed] is the answer to [confirm(...)]. *)
Definition resetBtn_click (confirmed : bool) (st : state) : state :=
  if negb confirmed then st
  else
    let st := set_scores 0 0 st in
    let st := set_revealed (foldr delete (revealed st) (Object_keys (revealed st))) st in
    saveScores (renderGrid (renderScores st)).

(** A click on the backdrop of the question modal.  The page-wide
    modal handler at the top of the script hides the modal in the same
    way (backdrop or close button); it shows a modal only on a click on
    a node that carries [data-open-modal], which no node created by this
    widget does. *)
Definition qModal_click (st : state) : state := set_show false st.

(** [(window.__SCORES__ && window.__SCORES__.scoreA) || 0] *)
Definition initial_score (w : option scores_data) (f : scores_data -> option Z) : Z :=
  match w with
  | Some d => match f d with
              | Some z => if Z.eqb z 0 then 0 else z
              | None => 0
              end
  | None => 0
  end.

(** The variables and nodes before the first rendering. *)
Definition fresh (g : game_data) (id : string) (sc : option scores_data) : state :=
  {| game := g; gameId := id;
     scoreA := initial_score sc sd_scoreA;
     scoreB := initial_score sc sd_scoreB;
     revealed := ∅; currentIndex := None;
     scoreAEl := ""; scoreBEl := ""; grid := [];
     qModal_show := false;
     qBadge_className := ""; qBadge_text := "";
     qTitle := ""; qAnswer := ""; sent := [] |}.

(** The initialiser.  It ends with [renderScores(); renderGrid();], and
    [renderGrid] calls [game.questions.forEach]: without [questions] it
    throws there and the promise of the initialiser rejects. *)
Definition initGameBoard (w : option game_object) (id : string)
    (sc : option scores_data) : init_result state :=
  match w with
  | None => Inert
  | Some o =>
      match go_questions o with
      | None => Crashed "TypeError"
      | Some l =>
          Started (renderGrid (renderScores (fresh {| questions := l |} id sc)))
      end
  end.

Inductive event : Type :=
| ClickCard (i : nat)
| ClickACorrect
| ClickAWrong
| ClickBCorrect
| ClickBWrong
| ClickSkip
| ClickReset (confirmed : bool)
| ClickBackdrop
| FetchSettled (ok : bool).

(** A click reaches a card only if the card exists and is enabled. *)
Definition card_clickable (st : state) (i : nat) : bool :=
  match grid st !! i with
  | Some c => negb (disabled c)
  | None => false
  end.

Definition handle (e : event) (st : state) : outcome state :=
  match e with
  | ClickCard i => if card_clickable st i then openModalFor i st else Done st
  | ClickACorrect => aCorrect_click st
  | ClickAWrong => Done (aWrong_click st)
  | ClickBCorrect => bCorrect_click st
  | ClickBWrong => Done (bWrong_click st)
  | ClickSkip => Done (skipBtn_click st)
  | ClickReset c => Done (resetBtn_click c st)
  | ClickBackdrop => Done (qModal_click st)
  | FetchSettled ok => Done (saveScores_settled ok st)
  end.

(** The clicks whose handlers call [saveScores]. *)
Definition persists (e : event) : bool :=
  match e with
  | ClickACorrect | ClickAWrong | ClickBCorrect | ClickBWrong
  | ClickReset true => true
  | _ => false
  end.

(** The request [saveScores] sends for the scores [sa] and [sb]. *)
Definition scores_request (id : string) (sa sb : Z) : request :=
  {| req_url := "/api/games/" +:+ encodeURIComponent id +:+ "/scores";
     req_method := "POST";
     req_content_type := "application/json";
     req_scoreA := sa;
     req_scoreB := sb |}.

(** [i] is the index of a question. *)
Definition index_valid (st : state) (i : nat) : Prop :=
  (i < length (questions (game st)))%nat.

(** What holds of the board between two events: the grid has one
    card per question, [currentIndex] is null or the index of a
    question, and the modal is shown only for a current question. *)
Definition board_inv (st : state) : Prop :=
  length (grid st) = length (questions (game st))
  ∧ (∀ i, currentIndex st = Some i → index_valid st i)
  ∧ (qModal_show st = true → is_Some (currentIndex st)).

(** A session: an uncaught exception ends the handler that raised it,
    not the page, so the next event finds the state it left. *)
Definition run (es : list event) (st : state) : state :=
  foldl (fun s e => state_of (handle e s)) st es.

End GameBoard.

(** ** PDF viewer *)
Module PdfViewer.

(** What the script reads of a loaded document. *)
Record pdf_doc : Type := { numPages : Z }.

(** Which of the nodes the script looks up exist; [has_canvas] stands
    for [canvas && ctx]. *)
Record dom : Type := {
  has_canvas : bool;
  has_pageCountEl : bool;
  has_pageMonoEl : bool;
  has_prevBtn : bool;
  has_nextBtn : bool;
  has_fsBtn : bool
}.

(** Where the initialiser stands: waiting for [getDocument], waiting
    for its own first [renderPage], past the installation of the
    handlers, or returned from its [catch]. *)
Inductive init_point : Type := LoadingDoc | FirstRender | Ready | Aborted.

(** The two [await]s of [renderPage]. *)
Inductive await_point : Type := AwaitGetPage | AwaitRender.

(** A suspended activation of [renderPage(num)]. *)
Record render_task : Type := { task_num : Z; task_at : await_point }.

Record state : Type := {
  nodes : dom;
  (* closed-over variables *)
  pdfDoc : option pdf_doc;
  pageNum : Z;
  totalPages : Z;
  rendering : bool;
  (* DOM nodes the widget writes *)
  prevBtn_disabled : bool;
  nextBtn_disabled : bool;
  pageCountEl : string;
  pageMonoEl : string;
  fit_width : Z;            (* [containerWidth] of the last activation that
                               sized the canvas; not [canvas.width] *)
  canvas_page : option Z;   (* the page last drawn on the canvas *)
  (* environment *)
  innerWidth : Z;
  fullscreen : bool;
  timers : nat;             (* [setTimeout] callbacks not yet run *)
  tasks : list render_task; (* suspended activations of [renderPage] *)
  init_at : init_point;
  alerts : nat
}.

Definition set_doc (d : option pdf_doc) (t : Z) (st : state) : state :=
  {| nodes := nodes st; pdfDoc := d; pageNum := pageNum st; totalPages := t;
     rendering := rendering st;
     prevBtn_disabled := prevBtn_disabled st; nextBtn_disabled := nextBtn_disabled st;
     pageCountEl := pageCountEl st; pageMonoEl := pageMonoEl st;
     fit_width := fit_width st; canvas_page := canvas_page st;
     innerWidth := innerWidth st; fullscreen := fullscreen st; timers := timers st;
     tasks := tasks st; init_at := init_at st; alerts := alerts st |}.

Definition set_pageNum (n : Z) (st : state) : state :=
  {| nodes := nodes st; pdfDoc := pdfDoc st; pageNum := n; totalPages := totalPages st;
     rendering := rendering st;
     prevBtn_disabled := prevBtn_disabled st; nextBtn_disabled := nextBtn_disabled st;
     pageCountEl := pageCountEl st; pageMonoEl := pageMonoEl st;
     fit_width := fit_width st; canvas_page := canvas_page st;
     innerWidth := innerWidth st; fullscreen := fullscreen st; timers := timers st;
     tasks := tasks st; init_at := init_at st; alerts := alerts st |}.

Definition set_rendering (b : bool) (st : state) : state :=
  {| nodes := nodes st; pdfDoc := pdfDoc st; pageNum := pageNum st;
     totalPages := totalPages st; rendering := b;
     prevBtn_disabled := prevBtn_disabled st; nextBtn_disabled := nextBtn_disabled st;
     pageCountEl := pageCountEl st; pageMonoEl := pageMonoEl st;
     fit_width := fit_width st; canvas_page := canvas_page st;
     innerWidth := innerWidth st; fullscreen := fullscreen st; timers := timers st;
     tasks := tasks st; init_at := init_at st; alerts := alerts st |}.

Definition set_view (pd nd : bool) (pc pm : string) (st : state) : state :=
  {| nodes := nodes st; pdfDoc := pdfDoc st; pageNum := pageNum st;
     totalPages := totalPages st; rendering := rendering st;
     prevBtn_disabled := pd; nextBtn_disabled := nd;
     pageCountEl := pc; pageMonoEl := pm;
     fit_width := fit_width st; canvas_page := canvas_page st;
     innerWidth := innerWidth st; fullscreen := fullscreen st; timers := timers st;
     tasks := tasks st; init_at := init_at st; alerts := alerts st |}.

Definition set_canvas (w : Z) (p : option Z) (st : state) : state :=
  {| nodes := nodes st; pdfDoc := pdfDoc st; pageNum := pageNum st;
     totalPages := totalPages st; rendering := rendering st;
     prevBtn_disabled := prevBtn_disabled st; nextBtn_disabled := nextBtn_disabled st;
     pageCountEl := pageCountEl st; pageMonoEl := pageMonoEl st;
     fit_width := w; canvas_page := p;
     innerWidth := innerWidth st; fullscreen := fullscreen st; timers := timers st;
     tasks := tasks st; init_at := init_at st; alerts := alerts st |}.

Definition set_env (w : Z) (fs : bool) (tm : nat) (st : state) : state :=
  {| nodes := nodes st; pdfDoc := pdfDoc st; pageNum := pageNum st;
     totalPages := totalPages st; rendering := rendering st;
     prevBtn_disabled := prevBtn_disabled st; nextBtn_disabled := nextBtn_disabled st;
     pageCountEl := pageCountEl st; pageMonoEl := pageMonoEl st;
     fit_width := fit_width st; canvas_page := canvas_page st;
     innerWidth := w; fullscreen := fs; timers := tm;
     tasks := tasks st; init_at := init_at st; alerts := alerts st |}.

Definition set_tasks (l : list render_task) (st : state) : state :=
  {| nodes := nodes st; pdfDoc := pdfDoc st; pageNum := pageNum st;
     totalPages := totalPages st; rendering := rendering st;
     prevBtn_disabled := prevBtn_disabled st; nextBtn_disabled := nextBtn_disabled st;
     pageCountEl := pageCountEl st; pageMonoEl := pageMonoEl st;
     fit_width := fit_width st; canvas_page := canvas_page st;
     innerWidth := innerWidth st; fullscreen := fullscreen st; timers := timers st;
     tasks := l; init_at := init_at st; alerts := alerts st |}.

Definition set_init (p : init_point) (al : nat) (st : state) : state :=
  {| nodes := nodes st; pdfDoc := pdfDoc st; pageNum := pageNum st;
     totalPages := totalPages st; rendering := rendering st;
     prevBtn_disabled := prevBtn_disabled st; nextBtn_disabled := nextBtn_disabled st;
     pageCountEl := pageCountEl st; pageMonoEl := pageMonoEl st;
     fit_width := fit_width st; canvas_page := canvas_page st;
     innerWidth := innerWidth st; fullscreen := fullscreen st; timers := timers st;
     tasks := tasks st; init_at := p; alerts := al |}.

Definition setButtons (st : state) : state :=
  let d := nodes st in
  set_view
    (if has_prevBtn d then (pageNum st <=? 1) else prevBtn_disabled st)
    (if has_nextBtn d then (pageNum st >=? totalPages st)
     else nextBtn_disabled st)
    (if has_pageCountEl d
     then pretty (pageNum st) +:+ "/" +:+ pretty (totalPages st)
     else pageCountEl st)
    (if has_pageMonoEl d
     then pretty (pageNum st) +:+ " / " +:+ pretty (totalPages st)
     else pageMonoEl st)
    st.

(** [renderPage(num)] up to its first [await]: the guard, the flag,
    and the activation left waiting for [pdfDoc.getPage(num)]. *)
Definition renderPage (num : Z) (st : state) : state :=
  if negb (bool_decide (is_Some (pdfDoc st))) || rendering st then st
  else
    let st := set_rendering true st in
    set_tasks (tasks st ++ [ {| task_num := num; task_at := AwaitGetPage |} ]) st.

(** The local [containerWidth]: [Math.min(1100, window.innerWidth - 40)].
    The script divides it by the width of the page to get a scale and
    sets [canvas.width] to the floor of the scaled page width; these
    floating-point steps are not modelled, so the state keeps
    [containerWidth] itself ([fit_width]) and not the canvas width,
    which is at most [containerWidth] and may fall one short of it. *)
Definition containerWidth (st : state) : Z := Z.min 1100 (innerWidth st - 40).

(** The initialiser's reaction to the end of its own [renderPage]. *)
Definition init_continue (ok : bool) (st : state) : state :=
  match init_at st with
  | FirstRender =>
      if ok then set_init Ready (alerts st) st
      else set_init Aborted (S (alerts st)) st
  | _ => st
  end.

(** The [k]-th suspended activation of [renderPage] is resumed: the
    promise it waits for resolved ([ok]) or rejected.  After [getPage]
    the activation computes [containerWidth] from the window as it is
    then and sizes the canvas for it ([fit_width] records that
    [containerWidth]); after [render] the page is on the canvas, the
    flag goes down and [setButtons] runs.  A rejection leaves the
    activation by its exception, the flag still up. *)
Definition settle (k : nat) (ok : bool) (st : state) : state :=
  match tasks st !! k with
  | None => st
  | Some t =>
      if ok then
        match task_at t with
        | AwaitGetPage =>
            let st := set_canvas (containerWidth st) (canvas_page st) st in
            set_tasks (<[k := {| task_num := task_num t; task_at := AwaitRender |}]>
                         (tasks st)) st
        | AwaitRender =>
            let st := set_canvas (fit_width st) (Some (task_num t)) st in
            let st := set_tasks (delete k (tasks st)) st in
            let st := set_rendering false st in
            init_continue true (setButtons st)
        end
      else
        init_continue false (set_tasks (delete k (tasks st)) st)
  end.

Definition prevBtn_onclick (st : state) : state :=
  if (pageNum st <=? 1) then st
  else
    let st := set_pageNum (pageNum st - 1) st in
    renderPage (pageNum st) st.

Definition nextBtn_onclick (st : state) : state :=
  if (pageNum st >=? totalPages st) then st
  else
    let st := set_pageNum (pageNum st + 1) st in
    renderPage (pageNum st) st.

(** The two tests of the [keydown] handler, in turn. *)
Definition keydown (key : string) (st : state) : state :=
  let st :=
    if String.eqb key "ArrowLeft" && (pageNum st >? 1) then
      let st := set_pageNum (pageNum st - 1) st in renderPage (pageNum st) st
    else st in
  if String.eqb key "ArrowRight" && (pageNum st <? totalPages st) then
    let st := set_pageNum (pageNum st + 1) st in renderPage (pageNum st) st
  else st.

Definition resize (st : state) : state := renderPage (pageNum st) st.

(** Outcome of the fullscreen request of [fsBtn.onclick]. *)
Inductive fs_result : Type := FsGranted | FsRejected | FsUnsupported.

Definition fsBtn_onclick (r : fs_result) (st : state) : state :=
  match r with
  | FsGranted => set_env (innerWidth st) (negb (fullscreen st)) (S (timers st)) st
  | FsUnsupported => set_env (innerWidth st) (fullscreen st) (S (timers st)) st
  | FsRejected => st
  end.

Definition timer_fired (st : state) : state :=
  match timers st with
  | O => st
  | S n => renderPage (pageNum st) (set_env (innerWidth st) (fullscreen st) n st)
  end.

(** The part of the initialiser that follows [getDocument]. *)
Definition doc_loaded (d : pdf_doc) (st : state) : state :=
  let st := set_doc (Some d) (numPages d) st in
  let st := setButtons st in
  let st := renderPage (pageNum st) st in
  set_init FirstRender (alerts st) st.

Definition doc_failed (st : state) : state :=
  set_init Aborted (S (alerts st)) st.

Definition start (url : option string) (d : dom) (w : Z) : init_result state :=
  match url with
  | None => Inert
  | Some _ =>
      if negb (has_canvas d) then Inert
      else Started
        {| nodes := d; pdfDoc := None; pageNum := 1; totalPages := 1;
           rendering := false;
           prevBtn_disabled := false; nextBtn_disabled := false;
           pageCountEl := ""; pageMonoEl := "";
           fit_width := 0; canvas_page := None;
           innerWidth := w; fullscreen := false; timers := 0%nat;
           tasks := []; init_at := LoadingDoc; alerts := 0%nat |}
  end.

Inductive event : Type :=
| DocLoaded (d : pdf_doc)
| DocFailed
| Settled (k : nat) (ok : bool)
| ClickPrev
| ClickNext
| KeyDown (key : string)
| Resize (w : Z)
| ClickFs (r : fs_result)
| TimerFired.

Definition ready (st : state) : bool :=
  match init_at st with Ready => true | _ => false end.

(** The handlers exist once the initialiser has got past its [try];
    a button's handler needs the button. *)
Definition handle (e : event) (st : state) : state :=
  match e with
  | DocLoaded d =>
      match init_at st with LoadingDoc => doc_loaded d st | _ => st end
  | DocFailed =>
      match init_at st with LoadingDoc => doc_failed st | _ => st end
  | Settled k ok => settle k ok st
  | ClickPrev =>
      if ready st && has_prevBtn (nodes st) then prevBtn_onclick st else st
  | ClickNext =>
      if ready st && has_nextBtn (nodes st) then nextBtn_onclick st else st
  | KeyDown key => if ready st then keydown key st else st
  | Resize w =>
      let st := set_env w (fullscreen st) (timers st) st in
      if ready st then resize st else st
  | ClickFs r =>
      if ready st && has_fsBtn (nodes st) then fsBtn_onclick r st else st
  | TimerFired => timer_fired st
  end.

Definition run (es : list event) (st : state) : state :=
  foldl (fun s e => handle e s) st es.

(** What the navigation handlers do once their test has passed:
    [pageNum] is set, then [renderPage(pageNum)] is called. *)
Definition go_to (n : Z) (st : state) : state :=
  renderPage n (set_pageNum n st).

(** At most one activation of [renderPage] is suspended, and none
    while the flag is down. *)
Definition exclusive (st : state) : Prop :=
  (length (tasks st) ≤ 1)%nat ∧ (rendering st = false → tasks st = []).

(** The flag is up and no activation is left to take it down. *)
Definition stuck (st : state) : Prop :=
  rendering st = true ∧ tasks st = [].

Definition page_in_range (st : state) : Prop :=
  1 ≤ pageNum st ≤ totalPages st.

(** The page number is in range, it is still 1 while the document is
    being loaded, and [totalPages] is the page count of the document. *)
Definition page_inv (st : state) : Prop :=
  page_in_range st
  ∧ (init_at st = LoadingDoc → pageNum st = 1)
  ∧ match pdfDoc st with
    | Some d => totalPages st = numPages d
    | None => True
    end.

(** Every document the session loads has at least one page. *)
Definition doc_has_pages (e : event) : Prop :=
  match e with DocLoaded d => 1 ≤ numPages d | _ => True end.

End PdfViewer.

(** ** Sequences of game operations

    The vocabulary of the score invariant: a session seen as calls of
    [openModalFor], [award], the skip handler and the reset handler. *)
Module GameOps.
Import GameBoard.

Inductive op : Type :=
| Open (i : nat)
| Award (team : string) (points : Z)
| Skip
| Reset (confirmed : bool).

Definition apply_op (o : op) (st : state) : state :=
  match o with
  | Open i => state_of (openModalFor i st)
  | Award team points => award team points st
  | Skip => skipBtn_click st
  | Reset c => resetBtn_click c st
  end.

Definition run_ops (ops : list op) (st : state) : state :=
  foldl (fun s o => apply_op o s) st ops.

(** A reset that the user confirmed. *)
Definition is_reset (o : op) : bool :=
  match o with Reset true => true | _ => false end.

Definition was_reset (ops : list op) : bool := existsb is_reset ops.

(** The operations after the most recent confirmed reset, or all of
    them if there was none. *)
Fixpoint since_last_reset (ops : list op) : list op :=
  match ops with
  | [] => []
  | o :: rest =>
      if was_reset rest then since_last_reset rest
      else if is_reset o then rest
      else o :: rest
  end.

(** The points one operation awards to [team]. *)
Definition gain (team : string) (o : op) : Z :=
  match o with
  | Award t p => if String.eqb t team then p else 0
  | _ => 0
  end.

(** The sum of the points awarded to [team]. *)
Definition points_for (team : string) (ops : list op) : Z :=
  foldr (fun o acc => gain team o + acc) 0 ops.

Definition nonneg_award (o : op) : Prop :=
  match o with Award _ p => 0 ≤ p | _ => True end.

(** The score of [team] after one operation, counted in the integers
    from the score [b] before it. *)
Definition score_after (team : string) (b : Z) (o : op) : Z :=
  if is_reset o then 0 else b + gain team o.

(** Counted in the integers from [b], the score of [team] is a safe
    integer after every operation of [ops]. *)
Fixpoint stays_safe (team : string) (b : Z) (ops : list op) : bool :=
  match ops with
  | [] => true
  | o :: rest =>
      safe_int (score_after team b o) && stays_safe team (score_after team b o) rest
  end.

End GameOps.

(** ** Concrete inputs used in the examples below *)
Module Scenarios.

Definition three_pages : SlidePlayer.slide_data :=
  {| SlidePlayer.pages :=
       [SlidePlayer.PageString "One";
        SlidePlayer.PageObject (Some "Two") (Some "body");
        SlidePlayer.PageNull] |}.

Definition three_pages_start : SlidePlayer.state :=
  SlidePlayer.render (SlidePlayer.fresh three_pages).

Definition empty_deck : SlidePlayer.slide_data := {| SlidePlayer.pages := [] |}.

Import GameBoard.

(** Two questions, worth 10 and 5 points. *)
Definition quiz : game_data :=
  {| questions :=
       [ {| qn_q := "2 + 2 ?"; qn_a := "4"; qn_points := 10; qn_type := None |};
         {| qn_q := "Capital of Thailand ?"; qn_a := "Bangkok";
            qn_points := 5; qn_type := Some "bonus" |} ] |}.

(** One question that costs 5 points. *)
Definition trap_quiz : game_data :=
  {| questions :=
       [ {| qn_q := "Spell it"; qn_a := "it"; qn_points := -5;
            qn_type := Some "trap" |} ] |}.



Definition saved_10_5 : option scores_data :=
  Some {| sd_scoreA := Some 10; sd_scoreB := Some 5 |}.

(** Team A saved at 2^53, the last integer before the doubles thin out. *)
Definition saved_2p53 : option scores_data :=
  Some {| sd_scoreA := Some 9007199254740992; sd_scoreB := Some 0 |}.

Definition game_start (g : game_data) (sc : option scores_data) : state :=
  renderGrid (renderScores (fresh g "7" sc)).

(** Team A got the first question right, team B the second. *)
Definition both_answered : state :=
  run [ClickCard 0; ClickACorrect; ClickCard 1; ClickBCorrect] (game_start quiz None).

Import PdfViewer.

Definition all_nodes : dom :=
  {| has_canvas := true; has_pageCountEl := true; has_pageMonoEl := true;
     has_prevBtn := true; has_nextBtn := true; has_fsBtn := true |}.

Definition three_page_pdf : pdf_doc := {| numPages := 3 |}.

(** The viewer before [getDocument] has settled, in a window 1280 wide. *)
Definition pdf_loading : PdfViewer.state :=
  {| nodes := all_nodes; pdfDoc := None; pageNum := 1; totalPages := 1;
     rendering := false;
     PdfViewer.prevBtn_disabled := false; PdfViewer.nextBtn_disabled := false;
     pageCountEl := ""; pageMonoEl := "";
     fit_width := 0; canvas_page := None;
     innerWidth := 1280; fullscreen := false; timers := 0%nat;
     tasks := []; init_at := LoadingDoc; alerts := 0%nat |}.

(** The document is loaded and page 1 is drawn. *)
Definition pdf_ready : PdfViewer.state :=
  PdfViewer.run [DocLoaded three_page_pdf; Settled 0 true; Settled 0 true]
    pdf_loading.

(** [next] was clicked; the rendering of page 2 is under way. *)
Definition pdf_busy : PdfViewer.state :=
  PdfViewer.handle PdfViewer.ClickNext pdf_ready.

End Scenarios.

(** ** The game board seen from outside

    What the nodes show, what has been paid out, and what the scores
    requests look like. *)
Module GameView.
Import GameBoard.

(** The nodes show the variables: one card per question, built from the
    revealed flags, and the two scores. *)
Definition synced (st : state) : Prop :=
  grid st = imap (λ i _, make_card (revealed st) i) (questions (game st))
  ∧ scoreAEl st = pretty (scoreA st)
  ∧ scoreBEl st = pretty (scoreB st).

(** The point values of the revealed questions among [qs], whose first
    element has index [k]. *)
Fixpoint points_from (r : gmap nat bool) (k : nat) (qs : list question) : Z :=
  match qs with
  | [] => 0
  | q :: rest => (if isRev r k then qn_points q else 0) + points_from r (S k) rest
  end.

Definition revealed_points (st : state) : Z :=
  points_from (revealed st) 0 (questions (game st)).

Definition total_points (g : game_data) : Z :=
  foldr (λ q acc, qn_points q + acc) 0 (questions g).

(** The current question is a question not yet revealed, no score is
    negative, and the two scores together do not exceed [base] plus
    the values of the revealed questions. *)
Definition payout_inv (base : Z) (st : state) : Prop :=
  synced st
  ∧ (∀ i, currentIndex st = Some i →
          index_valid st i ∧ isRev (revealed st) i = false)
  ∧ 0 ≤ scoreA st ∧ 0 ≤ scoreB st
  ∧ scoreA st + scoreB st ≤ base + revealed_points st.

Definition is_confirmed_reset (e : event) : bool :=
  match e with ClickReset true => true | _ => false end.

(** The scores the server was last told, [a0] and [b0] standing for the
    scores embedded in the page. *)
Definition last_posted (a0 b0 : Z) (st : state) : Z * Z :=
  match last (sent st) with
  | Some r => (req_scoreA r, req_scoreB r)
  | None => (a0, b0)
  end.

Fixpoint string_forall (P : ascii → bool) (s : string) : bool :=
  match s with
  | EmptyString => true
  | String c rest => P c && string_forall P rest
  end.

(** The characters that end or split a path segment of a URL. *)
Definition path_delimiter (c : ascii) : bool :=
  existsb (Ascii.eqb c) ["/"; "?"; "#"; "&"; "="; " "]%char.

End GameView.

(** ** The life of the PDF viewer *)
Module PdfLife.
Import PdfViewer.

(** What holds at each point of the initialiser.  While the document
    is loading nothing has happened yet; during the first rendering the
    flag is up; once the handlers are installed a document is loaded,
    a page has been drawn, no alert was raised, and an idle viewer
    shows the current page number; after the [catch] no rendering is
    left and one alert was raised. *)
Definition phase_facts (st : state) : Prop :=
  match init_at st with
  | LoadingDoc =>
      pdfDoc st = None ∧ rendering st = false ∧ tasks st = []
      ∧ canvas_page st = None ∧ alerts st = 0%nat ∧ timers st = 0%nat
  | FirstRender =>
      is_Some (pdfDoc st) ∧ rendering st = true
      ∧ alerts st = 0%nat ∧ timers st = 0%nat ∧ tasks st ≠ []
  | Ready =>
      is_Some (pdfDoc st) ∧ is_Some (canvas_page st) ∧ alerts st = 0%nat
      ∧ (rendering st = false → setButtons st = st)
  | Aborted =>
      tasks st = [] ∧ alerts st = 1%nat ∧ timers st = 0%nat
  end.

Definition lifecycle_inv (st : state) : Prop := exclusive st ∧ phase_facts st.

(** The pages asked of the document and the page on the canvas exist. *)
Definition pages_valid (st : state) : Prop :=
  Forall (λ t, 1 ≤ task_num t ≤ totalPages st) (tasks st)
  ∧ match canvas_page st with
    | Some p => 1 ≤ p ≤ totalPages st
    | None => True
    end
  ∧ fit_width st ≤ 1100.

End PdfLife.

(** ** The page-wide modal handler

    The click handler registered on the document.  What it asks the
    DOM is part of the click: whether the target is an element at all,
    what [document.querySelector] does with the selector of the nearest
    [data-open-modal] ancestor of the target, the [.modal] around the
    nearest [data-close-modal] ancestor, and the target itself when it
    carries the class [modal].  The state is the set of nodes whose
    class list holds [show]. *)
Module ModalHandling.

Definition node : Type := nat.

(** [document.querySelector(sel)]: the first match, null, or a
    SyntaxError when [sel] is not a selector (the empty string, say). *)
Inductive selection : Type :=
| Found (modal : node)
| NoMatch
| BadSelector.

Record click : Type := {
  (* the target has [closest], as every element does; a text node or
     the document, reached by a synthetic event, has not *)
  on_element : bool;
  (* [closest("[data-open-modal]")]: absent, or present with what
     [document.querySelector(sel)] does *)
  openBtn : option selection;
  (* [closest("[data-close-modal]")]: absent, or present with what
     [closeBtn.closest(".modal")] finds *)
  closeBtn : option (option node);
  (* the target, if its class list contains [modal] *)
  target_modal : option node
}.

Definition on_click (e : click) (shown : gset node) : outcome (gset node) :=
  if negb (on_element e) then Threw shown "TypeError"
  else
    match openBtn e with
    | Some BadSelector => Threw shown "SyntaxError"
    | o =>
        let shown :=
          match o with
          | Some (Found modal) => {[modal]} ∪ shown
          | _ => shown
          end in
        let shown :=
          match closeBtn e with
          | Some (Some modal) => shown ∖ {[modal]}
          | _ => shown
          end in
        Done match target_modal e with
             | Some modal => shown ∖ {[modal]}
             | None => shown
             end
    end.

(** The clicks whose handler throws. *)
Definition throws (e : click) : bool :=
  negb (on_element e)
  || match openBtn e with Some BadSelector => true | _ => false end.

(** The modal a click asks to show, and the modals it asks to hide. *)
Definition opens (e : click) (m : node) : Prop := openBtn e = Some (Found m).

Definition closes (e : click) (m : node) : Prop :=
  closeBtn e = Some (Some m) ∨ target_modal e = Some m.

End ModalHandling.

(** * Properties *)

(** ** Slide player *)
Section SlidePlayerFacts.
Import SlidePlayer Scenarios.

Lemma render_idx st : idx (render st) = idx st.
Proof. reflexivity. Qed.

Lemma render_slide st : slide (render st) = slide st.
Proof. reflexivity. Qed.

Lemma key_left_is_prev st : keydown "ArrowLeft" st = prev st.
Proof. reflexivity. Qed.

Lemma key_right_is_next st : keydown "ArrowRight" st = next st.
Proof. reflexivity. Qed.

Lemma keydown_cases key st :
  keydown key st = prev st ∨ keydown key st = next st ∨ keydown key st = st.
Proof.
  unfold keydown.
  destruct (String.eqb_spec key "ArrowLeft") as [-> | Hl].
  - left. reflexivity.
  - destruct (String.eqb_spec key "ArrowRight") as [-> | Hr].
    + right; left. reflexivity.
    + right; right. reflexivity.
Qed.

Lemma handle_slide e st : slide (handle e st) = slide st.
Proof.
  destruct e as [ | | key]; try reflexivity.
  cbn [handle]. destruct (keydown_cases key st) as [-> | [-> | ->]]; reflexivity.
Qed.

Lemma prev_in_range st : 0 < total (slide st) → in_range st → in_range (prev st).
Proof. unfold in_range, prev. cbn. lia. Qed.

Lemma next_in_range st : 0 < total (slide st) → in_range st → in_range (next st).
Proof. unfold in_range, next. cbn. lia. Qed.

Lemma handle_in_range e st :
  0 < total (slide st) → in_range st → in_range (handle e st).
Proof.
  intros Hpos Hin. destruct e as [ | | key]; cbn [handle].
  - by apply prev_in_range.
  - by apply next_in_range.
  - destruct (keydown_cases key st) as [-> | [-> | ->]];
      [by apply prev_in_range | by apply next_in_range | done].
Qed.

Lemma run_in_range es : ∀ st,
  0 < total (slide st) → in_range st → in_range (run es st).
Proof.
  induction es as [ | e es IH]; intros st Hpos Hin; [done | ].
  cbn. apply IH.
  - by rewrite handle_slide.
  - by apply handle_in_range.
Qed.

Lemma run_slide es : ∀ st, slide (run es st) = slide st.
Proof.
  induction es as [ | e es IH]; intros st; [done | ].
  change (slide (run es (handle e st)) = slide st).
  by rewrite IH, handle_slide.
Qed.

Lemma total_pos sd : pages sd ≠ [] → 0 < total sd.
Proof. unfold total. destruct (pages sd); [done | cbn; lia]. Qed.

Lemma next_step st :
  in_range st →
  idx (next st) = (if bool_decide (idx st = total (slide st) - 1)
                   then idx st else idx st + 1).
Proof. unfold in_range, next. cbn. case_bool_decide; lia. Qed.

Lemma prev_step st :
  in_range st →
  idx (prev st) = (if bool_decide (idx st = 0) then 0 else idx st - 1).
Proof. unfold in_range, prev. cbn. case_bool_decide; lia. Qed.

(** C2 (as amended): for every non-empty page list, the session that
    starts at index 0 keeps the index within [0, totalPages-1] under
    every sequence of button clicks and key presses; the arrow keys do
    what the buttons do; [next] stays on the last page and [prev]
    stays on page 0, and away from these two ends they move by one. *)
Theorem C2_slide_index_stays_in_range (sd : slide_data) (st0 : state)
    (es : list event) :
  pages sd ≠ [] →
  initSlidePlayer (Some (slide_with sd)) = Started st0 →
  idx st0 = 0
  ∧ in_range (run es st0)
  ∧ total (slide (run es st0)) = total sd
  ∧ (∀ st, keydown "ArrowLeft" st = prev st ∧ keydown "ArrowRight" st = next st)
  ∧ (∀ st, in_range st →
       idx (next st) = (if bool_decide (idx st = total (slide st) - 1)
                        then idx st else idx st + 1)
       ∧ idx (prev st) = (if bool_decide (idx st = 0) then 0 else idx st - 1)).
Proof.
  intros Hne Hinit. injection Hinit as <-.
  pose proof (total_pos sd Hne) as Hpos.
  split; [reflexivity | ]. split.
  { apply run_in_range; [exact Hpos | ]. unfold in_range, total in *. cbn. lia. }
  split; [by rewrite run_slide | ].
  split; [intros st; split; reflexivity | ].
  intros st Hin. split; [by apply next_step | by apply prev_step].
Qed.

Lemma C2_slide_index_stays_in_range_witness :
  pages three_pages ≠ []
  ∧ initSlidePlayer (Some (slide_with three_pages)) = Started three_pages_start
  ∧ in_range (run [ClickNext; ClickNext; ClickNext] three_pages_start)
  ∧ idx (run [ClickNext; ClickNext; ClickNext] three_pages_start) = 2
  ∧ countEl (run [ClickNext; ClickNext; ClickNext] three_pages_start) = "3/3".
Proof.
  split; [discriminate | ]. split; [reflexivity | ].
  split.
  - apply (C2_slide_index_stays_in_range three_pages three_pages_start
             [ClickNext; ClickNext; ClickNext]); [discriminate | reflexivity].
  - split; vm_compute; reflexivity.
Defined.

(** C2, as stated, fails on the empty page list: no index lies in
    [0, -1], the starting index 0 included, and one [next] moves the
    index to -1. *)
Lemma C2_counterexample_empty_deck :
  ∃ st0, initSlidePlayer (Some (slide_with {| pages := [] |})) = Started st0
         ∧ ¬ in_range st0
         ∧ idx (run [ClickNext] st0) = -1
         ∧ ¬ in_range (run [ClickNext] st0).
Proof.
  eexists. split; [reflexivity | ].
  split; [unfold in_range, total; cbn; lia | ].
  split; [reflexivity | unfold in_range, total; cbn; lia].
Qed.

End SlidePlayerFacts.

(** ** Game board *)
Section GameBoardFacts.
Import GameBoard GameOps Scenarios.

(** *** Scores under the individual operations *)

Lemma closeModalMarkRevealed_scores st :
  scoreA (closeModalMarkRevealed st) = scoreA st
  ∧ scoreB (closeModalMarkRevealed st) = scoreB st.
Proof. unfold closeModalMarkRevealed. by destruct (currentIndex st). Qed.

(** *** The addition of the script *)

Lemma round_double_safe z : safe_int z = true → round_double z = z.
Proof. unfold safe_int, round_double. by intros ->. Qed.

Lemma js_add_safe a b : safe_int (a + b) = true → js_add a b = a + b.
Proof. apply round_double_safe. Qed.

Lemma round_double_nonneg z : 0 ≤ z → 0 ≤ round_double z.
Proof.
  intros Hz. unfold round_double. destruct (Z.abs z <=? 2 ^ 53); [done | ].
  apply Z.mul_nonneg_nonneg; [by apply Z.sgn_nonneg | ].
  assert (0 ≤ Z.abs z / 2 ^ (Z.log2 (Z.abs z) - 52)) as Hq.
  { apply Z_div_nonneg_nonneg; [lia | apply Z.pow_nonneg; lia]. }
  apply Z.mul_nonneg_nonneg; [ | apply Z.pow_nonneg; lia].
  match goal with |- context [if ?b then _ else _] => destruct b end; lia.
Qed.

Lemma js_add_nonneg a b : 0 ≤ a → 0 ≤ b → 0 ≤ js_add a b.
Proof. intros. apply round_double_nonneg. lia. Qed.

Lemma award_scoreA team p st :
  scoreA (award team p st)
  = (if String.eqb team "A" then js_add (scoreA st) p else scoreA st).
Proof.
  unfold award. rewrite (proj1 (closeModalMarkRevealed_scores _)). cbn.
  by destruct (String.eqb team "A"), (String.eqb team "B").
Qed.

Lemma award_scoreB team p st :
  scoreB (award team p st)
  = (if String.eqb team "B" then js_add (scoreB st) p else scoreB st).
Proof.
  unfold award. rewrite (proj2 (closeModalMarkRevealed_scores _)). cbn.
  by destruct (String.eqb team "A"), (String.eqb team "B").
Qed.

Lemma openModalFor_scores i st :
  scoreA (state_of (openModalFor i st)) = scoreA st
  ∧ scoreB (state_of (openModalFor i st)) = scoreB st.
Proof.
  unfold openModalFor. cbn.
  destruct (questions (game st) !! i) as [item | ]; cbn; [ | done].
  by repeat match goal with |- context [if ?b then _ else _] => destruct b end.
Qed.

Lemma reset_confirmed_scores st :
  scoreA (resetBtn_click true st) = 0 ∧ scoreB (resetBtn_click true st) = 0.
Proof. done. Qed.

Lemma apply_op_scoreA o st :
  safe_int (score_after "A" (scoreA st) o) = true →
  scoreA (apply_op o st) = score_after "A" (scoreA st) o.
Proof.
  unfold score_after.
  destruct o as [i | team p | | [ | ]]; cbn [apply_op is_reset gain]; intros Hs.
  - rewrite (proj1 (openModalFor_scores i st)). lia.
  - rewrite award_scoreA.
    destruct (String.eqb team "A"); [by apply js_add_safe | lia].
  - unfold skipBtn_click. rewrite (proj1 (closeModalMarkRevealed_scores st)). lia.
  - reflexivity.
  - cbn. lia.
Qed.

Lemma apply_op_scoreB o st :
  safe_int (score_after "B" (scoreB st) o) = true →
  scoreB (apply_op o st) = score_after "B" (scoreB st) o.
Proof.
  unfold score_after.
  destruct o as [i | team p | | [ | ]]; cbn [apply_op is_reset gain]; intros Hs.
  - rewrite (proj2 (openModalFor_scores i st)). lia.
  - rewrite award_scoreB.
    destruct (String.eqb team "B"); [by apply js_add_safe | lia].
  - unfold skipBtn_click. rewrite (proj2 (closeModalMarkRevealed_scores st)). lia.
  - reflexivity.
  - cbn. lia.
Qed.

Lemma apply_op_nonnegA o st :
  nonneg_award o → 0 ≤ scoreA st → 0 ≤ scoreA (apply_op o st).
Proof.
  destruct o as [i | team p | | [ | ]]; cbn [apply_op nonneg_award]; intros Ho Hs.
  - by rewrite (proj1 (openModalFor_scores i st)).
  - rewrite award_scoreA. destruct (String.eqb team "A"); [ | done].
    by apply js_add_nonneg.
  - unfold skipBtn_click. by rewrite (proj1 (closeModalMarkRevealed_scores st)).
  - done.
  - done.
Qed.

Lemma apply_op_nonnegB o st :
  nonneg_award o → 0 ≤ scoreB st → 0 ≤ scoreB (apply_op o st).
Proof.
  destruct o as [i | team p | | [ | ]]; cbn [apply_op nonneg_award]; intros Ho Hs.
  - by rewrite (proj2 (openModalFor_scores i st)).
  - rewrite award_scoreB. destruct (String.eqb team "B"); [ | done].
    by apply js_add_nonneg.
  - unfold skipBtn_click. by rewrite (proj2 (closeModalMarkRevealed_scores st)).
  - done.
  - done.
Qed.

Lemma since_last_reset_none ops :
  was_reset ops = false → since_last_reset ops = ops.
Proof.
  destruct ops as [ | o rest]; [done | ].
  cbn [was_reset existsb since_last_reset]. intros H.
  apply orb_false_iff in H as [Ho Hrest].
  fold (was_reset rest). unfold was_reset at 1. by rewrite Hrest, Ho.
Qed.

(** The score of a team after a run, from any starting state, as long
    as it stays a safe integer. *)
Lemma run_ops_score (team : string) (sc : state → Z)
    (Hstep : ∀ o st, safe_int (score_after team (sc st) o) = true →
                     sc (apply_op o st) = score_after team (sc st) o)
    (ops : list op) :
  ∀ st, stays_safe team (sc st) ops = true →
        sc (run_ops ops st)
        = (if was_reset ops then 0 else sc st)
          + points_for team (since_last_reset ops).
Proof.
  induction ops as [ | o rest IH]; intros st Hsafe.
  - cbn. lia.
  - cbn [stays_safe] in Hsafe. apply andb_true_iff in Hsafe as [Ho Hrest'].
    change (run_ops (o :: rest) st) with (run_ops rest (apply_op o st)).
    rewrite IH by (by rewrite Hstep). rewrite Hstep by done.
    unfold score_after.
    cbn [was_reset existsb since_last_reset]. fold (was_reset rest).
    destruct (was_reset rest) eqn:Hrest.
    + by rewrite orb_true_r.
    + rewrite orb_false_r, (since_last_reset_none rest Hrest).
      destruct (is_reset o) eqn:Hr; [reflexivity | ].
      cbn [points_for foldr]. fold (points_for team rest). lia.
Qed.

Lemma run_ops_nonneg (sc : state → Z)
    (Hstep : ∀ o st, nonneg_award o → 0 ≤ sc st → 0 ≤ sc (apply_op o st))
    (ops : list op) :
  Forall nonneg_award ops →
  ∀ st, 0 ≤ sc st → 0 ≤ sc (run_ops ops st).
Proof.
  induction 1 as [ | o rest Ho _ IH]; intros st Hst; [done | ].
  change (run_ops (o :: rest) st) with (run_ops rest (apply_op o st)).
  by apply IH, Hstep.
Qed.

Lemma init_scores g id sc st0 :
  initGameBoard (Some (game_with g)) id sc = Started st0 →
  scoreA st0 = initial_score sc sd_scoreA
  ∧ scoreB st0 = initial_score sc sd_scoreB.
Proof. intros H. injection H as <-. done. Qed.

(** In a session of clicks the points awarded are 0 or the point
    value of a question: scores that start >= 0 stay >= 0 when no
    question has a negative value. *)
Lemma session_scores_nonneg es : ∀ st,
  Forall (λ q, 0 ≤ qn_points q) (questions (game st)) →
  0 ≤ scoreA st → 0 ≤ scoreB st →
  0 ≤ scoreA (run es st) ∧ 0 ≤ scoreB (run es st).
Proof.
  induction es as [ | e es IH]; intros st Hq HA HB; [done | ].
  change (run (e :: es) st) with (run es (state_of (handle e st))).
  assert (∀ team p, 0 ≤ p →
            0 ≤ scoreA (award team p st) ∧ 0 ≤ scoreB (award team p st)) as Haward.
  { intros team p Hp. rewrite award_scoreA, award_scoreB.
    destruct (String.eqb team "A"), (String.eqb team "B");
      split; try done; by apply js_add_nonneg. }
  assert (∀ team, 0 ≤ scoreA (state_of (correct_click team st))
                  ∧ 0 ≤ scoreB (state_of (correct_click team st))) as Hcorrect.
  { intros team. unfold correct_click, current_question.
    destruct (currentIndex st) as [i | ]; [ | done].
    destruct (questions (game st) !! i) as [item | ] eqn:Hi; [ | done].
    apply Haward. rewrite Forall_forall in Hq. apply Hq.
    by apply list_elem_of_lookup_2 in Hi. }
  assert (game (state_of (handle e st)) = game st
          ∧ 0 ≤ scoreA (state_of (handle e st))
          ∧ 0 ≤ scoreB (state_of (handle e st))) as (Hg & HA' & HB').
  { destruct e as [i | | | | | | [ | ] | | ok]; cbn [handle state_of].
    - destruct (card_clickable st i); [ | done].
      destruct (openModalFor_scores i st) as [-> ->]. split; [ | done].
      unfold openModalFor. cbn.
      destruct (questions (game st) !! i); cbn; [ | done].
      by repeat match goal with |- context [if ?b then _ else _] => destruct b end.
    - split; [ | apply Hcorrect]. unfold aCorrect_click, correct_click.
      destruct (current_question st); [ | done].
      unfold award, closeModalMarkRevealed. cbn. by destruct (currentIndex st).
    - split; [ | by apply Haward].
      unfold aWrong_click, award, closeModalMarkRevealed. cbn.
      by destruct (currentIndex st).
    - split; [ | apply Hcorrect]. unfold bCorrect_click, correct_click.
      destruct (current_question st); [ | done].
      unfold award, closeModalMarkRevealed. cbn. by destruct (currentIndex st).
    - split; [ | by apply Haward].
      unfold bWrong_click, award, closeModalMarkRevealed. cbn.
      by destruct (currentIndex st).
    - unfold skipBtn_click.
      destruct (closeModalMarkRevealed_scores st) as [-> ->].
      split; [ | done]. unfold closeModalMarkRevealed. by destruct (currentIndex st).
    - done.
    - done.
    - done.
    - by destruct ok. }
  apply IH; [by rewrite Hg | done | done].
Qed.

(** C1 (as amended): after any sequence of operations, each score is
    the sum of the points awarded to the team since the most recent
    confirmed reset, counted from 0 if there was such a reset and from
    the score embedded in the page ([window.__SCORES__], 0 when
    absent) if there was none, as long as that count stays a safe
    integer (at most 2^53 in absolute value) after every operation, so
    that the additions of the script are exact; both scores are >= 0 as
    long as the embedded scores and all awarded points are. *)
Theorem C1_scores_base_plus_awarded (g : game_data) (id : string)
    (sc : option scores_data) (st0 : state) (ops : list op) :
  initGameBoard (Some (game_with g)) id sc = Started st0 →
  (stays_safe "A" (initial_score sc sd_scoreA) ops = true →
   scoreA (run_ops ops st0)
   = (if was_reset ops then 0 else initial_score sc sd_scoreA)
     + points_for "A" (since_last_reset ops))
  ∧ (stays_safe "B" (initial_score sc sd_scoreB) ops = true →
     scoreB (run_ops ops st0)
     = (if was_reset ops then 0 else initial_score sc sd_scoreB)
       + points_for "B" (since_last_reset ops))
  ∧ (0 ≤ initial_score sc sd_scoreA → 0 ≤ initial_score sc sd_scoreB →
     Forall nonneg_award ops →
     0 ≤ scoreA (run_ops ops st0) ∧ 0 ≤ scoreB (run_ops ops st0)).
Proof.
  intros Hinit. destruct (init_scores _ _ _ _ Hinit) as [HA HB].
  rewrite <- HA, <- HB. split; [ | split].
  - apply (run_ops_score "A" scoreA apply_op_scoreA).
  - apply (run_ops_score "B" scoreB apply_op_scoreB).
  - intros H0A H0B Hops. split.
    + by apply (run_ops_nonneg scoreA apply_op_nonnegA).
    + by apply (run_ops_nonneg scoreB apply_op_nonnegB).
Qed.

Lemma C1_scores_base_plus_awarded_witness :
  scoreA (run_ops [Open 0; Award "A" 10; Open 1; Award "B" 5; Award "A" 0]
            (game_start quiz saved_10_5))
  = (if was_reset [Open 0; Award "A" 10; Open 1; Award "B" 5; Award "A" 0]
     then 0 else initial_score saved_10_5 sd_scoreA)
    + points_for "A"
        (since_last_reset [Open 0; Award "A" 10; Open 1; Award "B" 5; Award "A" 0])
  ∧ 0 ≤ scoreA (run_ops [Open 0; Award "A" 10; Open 1; Award "B" 5; Award "A" 0]
                  (game_start quiz saved_10_5))
  ∧ 0 ≤ scoreB (run_ops [Open 0; Award "A" 10; Open 1; Award "B" 5; Award "A" 0]
                  (game_start quiz saved_10_5)).
Proof.
  destruct (C1_scores_base_plus_awarded quiz "7" saved_10_5
              (game_start quiz saved_10_5)
              [Open 0; Award "A" 10; Open 1; Award "B" 5; Award "A" 0] eq_refl)
    as (HA & _ & Hnn).
  split.
  - apply HA. vm_compute. reflexivity.
  - apply Hnn.
    + vm_compute. discriminate.
    + vm_compute. discriminate.
    + repeat constructor; cbn; lia.
Defined.

(** C1, as stated, fails in three ways.  A page that embeds the saved
    scores 10 and 5 starts with these scores although nothing has been
    awarded yet; a question with a negative point value, answered
    correctly by team A, takes the score of team A below 0; and from an
    embedded score of 2^53 an award of 1 point is lost in the addition
    of the script. *)
Lemma C1_counterexample_saved_scores_and_negative_points :
  (initGameBoard (Some (game_with quiz)) "7" saved_10_5
   = Started (game_start quiz saved_10_5)
   ∧ scoreA (run_ops [] (game_start quiz saved_10_5)) = 10
   ∧ points_for "A" (since_last_reset []) = 0
   ∧ scoreA (run_ops [] (game_start quiz saved_10_5))
     ≠ points_for "A" (since_last_reset []))
  ∧ (initGameBoard (Some (game_with trap_quiz)) "7" None
     = Started (game_start trap_quiz None)
     ∧ scoreA (run [ClickCard 0; ClickACorrect] (game_start trap_quiz None)) = -5
     ∧ scoreA (run_ops [Open 0; Award "A" (-5)] (game_start trap_quiz None)) = -5
     ∧ ¬ 0 ≤ scoreA (run_ops [Open 0; Award "A" (-5)] (game_start trap_quiz None)))
  ∧ (initGameBoard (Some (game_with quiz)) "7" saved_2p53
     = Started (game_start quiz saved_2p53)
     ∧ scoreA (game_start quiz saved_2p53) = 9007199254740992
     ∧ scoreA (run_ops [Award "A" 1] (game_start quiz saved_2p53))
       = 9007199254740992
     ∧ points_for "A" (since_last_reset [Award "A" 1]) = 1).
Proof.
  split; [ | split].
  - split; [reflexivity | ]. split; [reflexivity | ]. split; [reflexivity | ].
    vm_compute. discriminate.
  - split; [reflexivity | ]. split; [reflexivity | ]. split; [reflexivity | ].
    vm_compute. intros H. apply H. reflexivity.
  - split; [reflexivity | ]. repeat apply conj; vm_compute; reflexivity.
Qed.

(** *** Revealed flags and the grid *)

Lemma lookup_foldr_delete (m : gmap nat bool) (l : list nat) (k : nat) :
  k ∈ l → foldr delete m l !! k = None.
Proof.
  induction l as [ | x l IH]; intros Hk; [by apply elem_of_nil in Hk | ].
  cbn [foldr]. destruct (decide (x = k)) as [-> | Hne].
  - apply lookup_delete_eq.
  - rewrite lookup_delete_ne by done. apply IH.
    apply elem_of_cons in Hk as [-> | Hk]; done.
Qed.

Lemma delete_all_keys (m : gmap nat bool) : foldr delete m (Object_keys m) = ∅.
Proof.
  apply map_eq. intros k. rewrite lookup_empty.
  destruct (m !! k) as [b | ] eqn:Hk.
  - apply lookup_foldr_delete. unfold Object_keys.
    apply list_elem_of_fmap. exists (k, b). split; [done | ].
    by apply elem_of_map_to_list.
  - generalize (Object_keys m). intros l.
    induction l as [ | x l IH]; cbn [foldr]; [done | ].
    destruct (decide (x = k)) as [-> | Hne];
      [apply lookup_delete_eq | by rewrite lookup_delete_ne].
Qed.

Lemma isRev_empty i : isRev ∅ i = false.
Proof. unfold isRev. by rewrite lookup_empty. Qed.

Lemma isRev_insert (r : gmap nat bool) i : isRev (<[i := true]> r) i = true.
Proof. unfold isRev. by rewrite lookup_insert_eq. Qed.

Lemma renderGrid_lookup st i :
  grid (renderGrid st) !! i
  = (λ _, make_card (revealed st) i) <$> questions (game st) !! i.
Proof. unfold renderGrid. cbn. by rewrite list_lookup_imap. Qed.

Lemma renderGrid_length st :
  length (grid (renderGrid st)) = length (questions (game st)).
Proof. unfold renderGrid. cbn. by rewrite length_imap. Qed.

(** *** The operations one by one *)

(** What [closeModalMarkRevealed] leaves behind. *)
Lemma closeModalMarkRevealed_spec st :
  let st' := closeModalMarkRevealed st in
  qModal_show st' = false
  ∧ currentIndex st' = None
  ∧ revealed st' = match currentIndex st with
                   | Some i => <[i := true]> (revealed st)
                   | None => revealed st
                   end
  ∧ grid st' = imap (λ i _, make_card (revealed st') i) (questions (game st))
  ∧ game st' = game st ∧ gameId st' = gameId st
  ∧ scoreAEl st' = scoreAEl st ∧ scoreBEl st' = scoreBEl st
  ∧ sent st' = sent st.
Proof. unfold closeModalMarkRevealed. by destruct (currentIndex st). Qed.




Lemma saveScores_sent st :
  sent (saveScores st)
  = (sent st ++ [scores_request (gameId st) (scoreA st) (scoreB st)])%list.
Proof. reflexivity. Qed.

Lemma card_clickable_renderGrid st i :
  card_clickable (renderGrid st) i
  = bool_decide (i < length (questions (game st)))%nat && negb (isRev (revealed st) i).
Proof.
  unfold card_clickable. rewrite renderGrid_lookup.
  destruct (questions (game st) !! i) as [item | ] eqn:Hi; cbn.
  - apply lookup_lt_Some in Hi. by rewrite bool_decide_eq_true_2.
  - apply lookup_ge_None in Hi. rewrite bool_decide_eq_false_2; [done | lia].
Qed.

Lemma card_clickable_saveScores st i :
  card_clickable (saveScores st) i = card_clickable st i.
Proof. reflexivity. Qed.

(** C6: a confirmed reset sets both scores to 0, empties the revealed
    flags, shows the scores 0 and 0, rebuilds the grid with every card
    enabled and numbered, and sends one POST of the scores 0 and 0; a
    reset that is not confirmed changes nothing.  On the game where
    team A has 10 points, team B has 5 and both questions are
    revealed, the reset gives 0 and 0 and both cards can be clicked
    again. *)
Theorem C6_reset_zeroes_scores_and_clears_revealed :
  (∀ st : state,
     let st' := resetBtn_click true st in
     scoreA st' = 0 ∧ scoreB st' = 0
     ∧ revealed st' = ∅
     ∧ scoreAEl st' = "0" ∧ scoreBEl st' = "0"
     ∧ grid st' = imap (λ i _, {| className := "cardbtn";
                                  textContent := pretty (Z.of_nat i + 1);
                                  disabled := false |})
                       (questions (game st))
     ∧ (∀ i, card_clickable st' i
             = bool_decide (i < length (questions (game st)))%nat)
     ∧ sent st' = (sent st ++ [scores_request (gameId st) 0 0])%list
     ∧ handle (ClickReset true) st = Done st'
     ∧ resetBtn_click false st = st)
  ∧ (scoreA both_answered = 10 ∧ scoreB both_answered = 5
     ∧ isRev (revealed both_answered) 0 = true
     ∧ isRev (revealed both_answered) 1 = true
     ∧ card_clickable both_answered 0 = false
     ∧ card_clickable both_answered 1 = false
     ∧ scoreA (resetBtn_click true both_answered) = 0
     ∧ scoreB (resetBtn_click true both_answered) = 0
     ∧ card_clickable (resetBtn_click true both_answered) 0 = true
     ∧ card_clickable (resetBtn_click true both_answered) 1 = true).
Proof.
  split.
  - intros st. cbn zeta. unfold resetBtn_click. cbn [negb].
    assert (∀ r, r = (∅ : gmap nat bool) →
              imap (λ i (_ : question), make_card r i) (questions (game st))
              = imap (λ i _, {| className := "cardbtn";
                                textContent := pretty (Z.of_nat i + 1);
                                disabled := false |}) (questions (game st)))
      as Hgrid.
    { intros r ->. apply imap_ext. intros i x _. unfold make_card.
      by rewrite isRev_empty. }
    repeat split; try reflexivity.
    + cbn. apply delete_all_keys.
    + cbn. apply Hgrid, delete_all_keys.
    + intros i. rewrite card_clickable_saveScores, card_clickable_renderGrid.
      cbn. by rewrite delete_all_keys, isRev_empty, andb_true_r.
  - vm_compute. repeat split; reflexivity.
Qed.

Lemma openModalFor_sent i st : sent (state_of (openModalFor i st)) = sent st.
Proof.
  unfold openModalFor. cbn.
  destruct (questions (game st) !! i) as [item | ]; cbn; [ | done].
  by repeat match goal with |- context [if ?b then _ else _] => destruct b end.
Qed.

(** Only the scoring clicks and a confirmed reset send a request. *)
Lemma quiet_events_send_nothing e st :
  persists e = false → sent (state_of (handle e st)) = sent st.
Proof.
  destruct e as [i | | | | | | [ | ] | | ok]; try discriminate; intros _; cbn.
  - destruct (card_clickable st i); [apply openModalFor_sent | done].
  - apply closeModalMarkRevealed_spec.
  - reflexivity.
  - reflexivity.
  - by destruct ok.
Qed.

(** C8: the skip handler closes the overlay, marks the current
    question revealed (its card is disabled from then on), leaves both
    scores and their display as they are, and sends nothing; among all
    events only the four scoring clicks and a confirmed reset send a
    request. *)
Theorem C8_skip_reveals_without_scoring_or_posting (st : state) :
  let st' := skipBtn_click st in
  handle ClickSkip st = Done st'
  ∧ qModal_show st' = false
  ∧ currentIndex st' = None
  ∧ revealed st' = match currentIndex st with
                   | Some i => <[i := true]> (revealed st)
                   | None => revealed st
                   end
  ∧ match currentIndex st with
    | Some i => isRev (revealed st') i = true ∧ card_clickable st' i = false
    | None => True
    end
  ∧ scoreA st' = scoreA st ∧ scoreB st' = scoreB st
  ∧ scoreAEl st' = scoreAEl st ∧ scoreBEl st' = scoreBEl st
  ∧ sent st' = sent st
  ∧ (∀ e s, if persists e then True else sent (state_of (handle e s)) = sent s).
Proof.
  cbn zeta. unfold skipBtn_click.
  destruct (closeModalMarkRevealed_spec st)
    as (Hshow & Hcur & Hrev & Hgrid & Hgame & _ & HelA & HelB & Hsent).
  destruct (closeModalMarkRevealed_scores st) as [HA HB].
  repeat split; try done.
  - destruct (currentIndex st) as [i | ] eqn:Hi; [ | done].
    rewrite Hrev in Hgrid. rewrite Hrev. split; [apply isRev_insert | ].
    unfold card_clickable. rewrite Hgrid, list_lookup_imap.
    destruct (questions (game st) !! i); cbn; [ | done].
    by rewrite isRev_insert.
  - intros e s. destruct (persists e) eqn:He; [done | ].
    by apply quiet_events_send_nothing.
Qed.

(** *** The invariant of the board *)

Lemma handle_game e st : game (state_of (handle e st)) = game st.
Proof.
  destruct e as [i | | | | | | [ | ] | | ok]; cbn; try done.
  - destruct (card_clickable st i); [ | done].
    unfold openModalFor. cbn.
    destruct (questions (game st) !! i) as [item | ]; cbn; [ | done].
    by repeat match goal with |- context [if ?b then _ else _] => destruct b end.
  - unfold aCorrect_click, correct_click.
    destruct (current_question st); [ | done]. cbn.
    unfold award, closeModalMarkRevealed. cbn. by destruct (currentIndex st).
  - unfold aWrong_click, award, closeModalMarkRevealed. cbn.
    by destruct (currentIndex st).
  - unfold bCorrect_click, correct_click.
    destruct (current_question st); [ | done]. cbn.
    unfold award, closeModalMarkRevealed. cbn. by destruct (currentIndex st).
  - unfold bWrong_click, award, closeModalMarkRevealed. cbn.
    by destruct (currentIndex st).
  - apply closeModalMarkRevealed_spec.
  - by destruct ok.
Qed.

Lemma closeModalMarkRevealed_inv st : board_inv (closeModalMarkRevealed st).
Proof.
  destruct (closeModalMarkRevealed_spec st)
    as (Hshow & Hcur & _ & Hgrid & Hgame & _).
  unfold board_inv, index_valid. rewrite Hshow, Hcur, Hgrid, Hgame, length_imap.
  done.
Qed.

Lemma award_inv team p st : board_inv (award team p st).
Proof. unfold award. apply closeModalMarkRevealed_inv. Qed.

Lemma openModalFor_inv i st :
  board_inv st → card_clickable st i = true →
  board_inv (state_of (openModalFor i st)).
Proof.
  intros (Hlen & Hcur & Hshow) Hclick.
  assert (index_valid st i) as Hi.
  { unfold card_clickable in Hclick. unfold index_valid. rewrite <- Hlen.
    destruct (grid st !! i) eqn:Hg; [ | done]. by apply lookup_lt_Some in Hg. }
  unfold index_valid in Hi. apply lookup_lt_is_Some in Hi as [item Hitem].
  unfold openModalFor. cbn. rewrite Hitem.
  assert (∀ bc bt, board_inv (set_show true
            (set_modal_text bc bt (qn_q item) (qn_a item)
               (set_currentIndex (Some i) st)))) as Hgoal.
  { intros bc bt. unfold board_inv, index_valid. cbn. split; [done | ].
    split; [ | by eauto].
    intros j [= <-]. by apply lookup_lt_Some in Hitem. }
  repeat match goal with |- context [if ?b then _ else _] => destruct b end;
    apply Hgoal.
Qed.

Lemma handle_inv e st : board_inv st → board_inv (state_of (handle e st)).
Proof.
  intros Hinv. destruct e as [i | | | | | | [ | ] | | ok]; cbn.
  - destruct (card_clickable st i) eqn:Hc; [by apply openModalFor_inv | done].
  - unfold aCorrect_click, correct_click.
    destruct (current_question st); [apply award_inv | done].
  - apply award_inv.
  - unfold bCorrect_click, correct_click.
    destruct (current_question st); [apply award_inv | done].
  - apply award_inv.
  - apply closeModalMarkRevealed_inv.
  - destruct Hinv as (Hlen & Hcur & Hshow).
    unfold board_inv, index_valid. cbn. by rewrite length_imap.
  - done.
  - destruct Hinv as (Hlen & Hcur & Hshow). unfold board_inv. cbn. done.
  - by destruct ok.
Qed.

Lemma run_inv es : ∀ st, board_inv st → board_inv (run es st).
Proof.
  induction es as [ | e es IH]; intros st Hinv; [done | ].
  change (board_inv (run es (state_of (handle e st)))).
  by apply IH, handle_inv.
Qed.

Lemma run_game es : ∀ st, game (run es st) = game st.
Proof.
  induction es as [ | e es IH]; intros st; [done | ].
  change (game (run es (state_of (handle e st))) = game st).
  by rewrite IH, handle_game.
Qed.

Lemma init_inv g id sc st0 :
  initGameBoard (Some (game_with g)) id sc = Started st0 →
  board_inv st0 ∧ game st0 = g.
Proof.
  intros [= <-]. split; [ | by destruct g].
  unfold board_inv, index_valid. cbn. by rewrite length_imap.
Qed.

Lemma correct_click_safe_iff team st :
  threw (correct_click team st) = false
  ↔ ∃ i, currentIndex st = Some i ∧ index_valid st i.
Proof.
  unfold correct_click, current_question, index_valid.
  destruct (currentIndex st) as [i | ]; cbn.
  - destruct (questions (game st) !! i) as [item | ] eqn:Hi; cbn.
    + split; [ | done]. intros _. exists i. split; [done | ].
      by apply lookup_lt_Some in Hi.
    + split; [done | ]. intros (j & [= <-] & Hj).
      apply lookup_ge_None in Hi. lia.
  - split; [done | ]. by intros (j & Hj & _).
Qed.

(** C9: the lookup made by the two correct-answer handlers succeeds
    exactly when [currentIndex] is the index of a question; with
    [currentIndex] null both handlers throw and change nothing.  In a
    session, [currentIndex] is always null or the index of a question,
    and it is such an index whenever the question modal is shown, so
    the handlers are safe while a question is open. *)
Theorem C9_correct_handlers_need_current_question :
  (∀ st : state,
     (threw (aCorrect_click st) = false
      ↔ ∃ i, currentIndex st = Some i ∧ index_valid st i)
     ∧ (threw (bCorrect_click st) = false
        ↔ ∃ i, currentIndex st = Some i ∧ index_valid st i))
  ∧ (∀ st : state,
       currentIndex st = None →
       aCorrect_click st = Threw st "TypeError"
       ∧ bCorrect_click st = Threw st "TypeError")
  ∧ (∀ (g : game_data) (id : string) (sc : option scores_data)
       (st0 : state) (es : list event),
       initGameBoard (Some (game_with g)) id sc = Started st0 →
       (currentIndex (run es st0) = None
        ∨ ∃ i, currentIndex (run es st0) = Some i
               ∧ (i < length (questions g))%nat)
       ∧ (qModal_show (run es st0) = true →
          threw (aCorrect_click (run es st0)) = false
          ∧ threw (bCorrect_click (run es st0)) = false)).
Proof.
  split; [ | split].
  - intros st. split; apply correct_click_safe_iff.
  - intros st Hnull. unfold aCorrect_click, bCorrect_click, correct_click,
      current_question. by rewrite Hnull.
  - intros g id sc st0 es Hinit.
    destruct (init_inv _ _ _ _ Hinit) as [Hinv0 Hg].
    pose proof (run_inv es st0 Hinv0) as (Hlen & Hcur & Hshow).
    pose proof (run_game es st0) as Hgame. rewrite Hg in Hgame.
    unfold index_valid in Hcur. rewrite Hgame in Hcur.
    split.
    + destruct (currentIndex (run es st0)) as [i | ] eqn:Hi; [right | by left].
      exists i. split; [done | by apply Hcur].
    + intros Hs. destruct (Hshow Hs) as [i Hi].
      assert (∃ j, currentIndex (run es st0) = Some j
                   ∧ index_valid (run es st0) j) as Hex.
      { exists i. split; [done | ]. unfold index_valid. rewrite Hgame.
        by apply Hcur. }
      split; by apply correct_click_safe_iff.
Qed.

Lemma C9_correct_handlers_need_current_question_witness :
  aCorrect_click (game_start quiz None) = Threw (game_start quiz None) "TypeError"
  ∧ threw (bCorrect_click (run [ClickCard 1] (game_start quiz None))) = false.
Proof.
  destruct C9_correct_handlers_need_current_question as (_ & Hnull & Hrun).
  split.
  - apply (Hnull (game_start quiz None)). reflexivity.
  - apply (Hrun quiz "7" None (game_start quiz None) [ClickCard 1]);
      reflexivity.
Defined.

End GameBoardFacts.

(** ** Absent state *)
Section InertFacts.
Import Scenarios.




End InertFacts.

(** ** PDF viewer *)
Section PdfViewerFacts.
Import PdfViewer Scenarios.

(** *** The guard of [renderPage] *)

Lemma renderPage_busy num st : rendering st = true → renderPage num st = st.
Proof. intros H. unfold renderPage. by rewrite H, orb_true_r. Qed.

Lemma renderPage_no_doc num st : pdfDoc st = None → renderPage num st = st.
Proof.
  intros H. unfold renderPage. rewrite H.
  rewrite bool_decide_eq_false_2; [done | ]. by intros [? ?].
Qed.

Lemma renderPage_cases num st :
  renderPage num st = st
  ∨ (rendering st = false
     ∧ renderPage num st
       = set_tasks (tasks st ++ [ {| task_num := num; task_at := AwaitGetPage |} ])
                   (set_rendering true st)).
Proof.
  unfold renderPage.
  destruct (negb (bool_decide (is_Some (pdfDoc st)))); cbn; [by left | ].
  destruct (rendering st); [by left | by right].
Qed.

Lemma renderPage_pages num st :
  pageNum (renderPage num st) = pageNum st
  ∧ totalPages (renderPage num st) = totalPages st.
Proof. by destruct (renderPage_cases num st) as [-> | [_ ->]]. Qed.

Lemma renderPage_canvas num st :
  canvas_page (renderPage num st) = canvas_page st
  ∧ fit_width (renderPage num st) = fit_width st.
Proof. by destruct (renderPage_cases num st) as [-> | [_ ->]]. Qed.

Lemma renderPage_exclusive num st : exclusive st → exclusive (renderPage num st).
Proof.
  intros [Hlen Hidle].
  destruct (renderPage_cases num st) as [-> | [Hr ->]]; [done | ].
  unfold exclusive. cbn. rewrite (Hidle Hr). cbn. split; [lia | done].
Qed.

Lemma renderPage_stuck num st : stuck st → stuck (renderPage num st).
Proof. intros [Hr Ht]. by rewrite renderPage_busy. Qed.

(** *** The navigation handlers by cases *)

Lemma prevBtn_onclick_cases st :
  (pageNum st ≤ 1 ∧ prevBtn_onclick st = st)
  ∨ (1 < pageNum st ∧ prevBtn_onclick st = go_to (pageNum st - 1) st).
Proof.
  unfold prevBtn_onclick.
  destruct (Z.leb_spec (pageNum st) 1); [by left | by right].
Qed.

Lemma nextBtn_onclick_cases st :
  (totalPages st ≤ pageNum st ∧ nextBtn_onclick st = st)
  ∨ (pageNum st < totalPages st ∧ nextBtn_onclick st = go_to (pageNum st + 1) st).
Proof.
  unfold nextBtn_onclick. rewrite Z.geb_leb.
  destruct (Z.leb_spec (totalPages st) (pageNum st)); [by left | by right].
Qed.

Lemma pdf_keydown_cases key st :
  keydown key st = st
  ∨ (key = "ArrowLeft" ∧ 1 < pageNum st
     ∧ keydown key st = go_to (pageNum st - 1) st)
  ∨ (key = "ArrowRight" ∧ pageNum st < totalPages st
     ∧ keydown key st = go_to (pageNum st + 1) st).
Proof.
  unfold keydown.
  destruct (String.eqb_spec key "ArrowLeft") as [-> | Hl]; cbn [andb String.eqb].
  - rewrite Z.gtb_ltb. destruct (Z.ltb_spec 1 (pageNum st)); cbn.
    + right; left. done.
    + by left.
  - destruct (String.eqb_spec key "ArrowRight") as [-> | Hr]; cbn [andb].
    + destruct (Z.ltb_spec (pageNum st) (totalPages st)); [ | by left].
      right; right. done.
    + by left.
Qed.

Lemma go_to_exclusive n st : exclusive st → exclusive (go_to n st).
Proof. intros H. by apply renderPage_exclusive. Qed.

Lemma go_to_stuck n st : stuck st → stuck (go_to n st).
Proof. intros H. by apply renderPage_stuck. Qed.

(** *** One suspended activation at a time *)

Lemma init_continue_exclusive ok st : exclusive st → exclusive (init_continue ok st).
Proof. unfold init_continue. by destruct (init_at st), ok. Qed.

Lemma settle_exclusive k ok st : exclusive st → exclusive (settle k ok st).
Proof.
  intros [Hlen Hidle]. unfold settle.
  destruct (tasks st !! k) as [t | ] eqn:Hk; [ | done].
  destruct (tasks st) as [ | t0 [ | t1 rest]] eqn:Ht; cbn in Hlen;
    [done | | lia].
  destruct k as [ | k]; [ | done]. injection Hk as ->.
  destruct (rendering st) eqn:Hr; [ | by specialize (Hidle eq_refl)].
  destruct ok.
  - destruct (task_at t).
    + unfold exclusive. cbn. rewrite ?Ht, ?Hr. cbn. split; [lia | done].
    + apply init_continue_exclusive. unfold exclusive. cbn. rewrite ?Ht. cbn.
      split; [lia | done].
  - apply init_continue_exclusive. unfold exclusive. cbn. rewrite ?Ht, ?Hr. cbn.
    split; [lia | done].
Qed.

Lemma handle_exclusive e st : exclusive st → exclusive (handle e st).
Proof.
  intros Hex. destruct e as [d | | k ok | | | key | w | r | ]; cbn [handle].
  - destruct (init_at st); try done.
    unfold doc_loaded. cbn zeta.
    match goal with |- exclusive (set_init _ _ (renderPage ?n ?s)) =>
      assert (exclusive (renderPage n s)) as H
        by (by apply renderPage_exclusive) end.
    exact H.
  - by destruct (init_at st).
  - by apply settle_exclusive.
  - destruct (ready st && has_prevBtn (nodes st)); [ | done].
    destruct (prevBtn_onclick_cases st) as [[_ ->] | [_ ->]];
      [done | by apply go_to_exclusive].
  - destruct (ready st && has_nextBtn (nodes st)); [ | done].
    destruct (nextBtn_onclick_cases st) as [[_ ->] | [_ ->]];
      [done | by apply go_to_exclusive].
  - destruct (ready st); [ | done].
    destruct (pdf_keydown_cases key st) as [-> | [(_ & _ & ->) | (_ & _ & ->)]];
      [done | by apply go_to_exclusive ..].
  - match goal with |- context [if ?b then _ else _] => destruct b end;
      [by apply renderPage_exclusive | done].
  - destruct (ready st && has_fsBtn (nodes st)); [ | done]. by destruct r.
  - unfold timer_fired. destruct (timers st); [done | ].
    by apply renderPage_exclusive.
Qed.

Lemma run_exclusive es : ∀ st, exclusive st → exclusive (run es st).
Proof.
  induction es as [ | e es IH]; intros st Hex; [done | ].
  change (exclusive (run es (handle e st))). by apply IH, handle_exclusive.
Qed.

Lemma start_exclusive url d w st0 : start url d w = Started st0 → exclusive st0.
Proof.
  unfold start. destruct url; [ | done]. destruct (has_canvas d); [ | done].
  intros [= <-]. unfold exclusive. cbn. split; [lia | done].
Qed.

(** *** The page number *)

Lemma renderPage_page_inv num st : page_inv st → page_inv (renderPage num st).
Proof. intros H. by destruct (renderPage_cases num st) as [-> | [_ ->]]. Qed.

Lemma go_to_page_inv n st :
  ready st = true → 1 ≤ n ≤ totalPages st → page_inv st → page_inv (go_to n st).
Proof.
  intros Hready Hn (Hin & Hload & Hdoc). apply renderPage_page_inv.
  unfold page_inv, page_in_range. cbn. split; [done | ]. split; [ | done].
  intros Hl. unfold ready in Hready. by rewrite Hl in Hready.
Qed.

Lemma init_continue_page_inv ok st : page_inv st → page_inv (init_continue ok st).
Proof.
  intros H. unfold init_continue.
  destruct (init_at st) eqn:Hi; [done | | done | done].
  destruct H as (Hin & _ & Hdoc).
  destruct ok; (split; [done | split; [done | done]]).
Qed.

Lemma settle_page_inv k ok st : page_inv st → page_inv (settle k ok st).
Proof.
  intros H. unfold settle. destruct (tasks st !! k) as [t | ]; [ | done].
  destruct ok; [destruct (task_at t) | ]; try apply init_continue_page_inv; done.
Qed.

Lemma handle_page_inv e st :
  doc_has_pages e → page_inv st → page_inv (handle e st).
Proof.
  intros He Hinv. destruct e as [d | | k ok | | | key | w | r | ]; cbn [handle].
  - destruct (init_at st) eqn:Hi; try done.
    destruct Hinv as (Hin & Hload & Hdoc). specialize (Hload Hi).
    unfold doc_loaded. cbn zeta.
    match goal with |- page_inv (set_init _ _ (renderPage ?n ?s)) =>
      assert (page_inv (renderPage n s)) as H end.
    { apply renderPage_page_inv. unfold page_inv, page_in_range. cbn.
      cbn in He. rewrite Hload, Hi. split; [lia | done]. }
    destruct H as (H1 & H2 & H3). by split.
  - destruct (init_at st) eqn:Hi; try done. by destruct Hinv as (? & ? & ?).
  - by apply settle_page_inv.
  - destruct (ready st) eqn:Hready; [ | done].
    destruct (has_prevBtn (nodes st)); [ | done]. cbn [andb].
    destruct (prevBtn_onclick_cases st) as [[_ ->] | [Hlt ->]]; [done | ].
    apply go_to_page_inv; [done | | done].
    destruct Hinv as ([? ?] & _). lia.
  - destruct (ready st) eqn:Hready; [ | done].
    destruct (has_nextBtn (nodes st)); [ | done]. cbn [andb].
    destruct (nextBtn_onclick_cases st) as [[_ ->] | [Hlt ->]]; [done | ].
    apply go_to_page_inv; [done | | done].
    destruct Hinv as ([? ?] & _). lia.
  - destruct (ready st) eqn:Hready; [ | done].
    destruct (pdf_keydown_cases key st)
      as [-> | [(_ & Hlt & ->) | (_ & Hlt & ->)]]; [done | | ];
      (apply go_to_page_inv; [done | | done]);
      destruct Hinv as ([? ?] & _); lia.
  - match goal with |- context [if ?b then _ else _] => destruct b end;
      [by apply renderPage_page_inv | done].
  - destruct (ready st && has_fsBtn (nodes st)); [ | done]. by destruct r.
  - unfold timer_fired. destruct (timers st); [done | ].
    by apply renderPage_page_inv.
Qed.

Lemma run_page_inv es : ∀ st,
  Forall doc_has_pages es → page_inv st → page_inv (run es st).
Proof.
  induction es as [ | e es IH]; intros st Hes Hinv; [done | ].
  apply Forall_cons in Hes as [He Hes].
  change (page_inv (run es (handle e st))). by apply IH, handle_page_inv.
Qed.

Lemma start_page_inv url d w st0 : start url d w = Started st0 → page_inv st0.
Proof.
  unfold start. destruct url; [ | done]. destruct (has_canvas d); [ | done].
  intros [= <-]. unfold page_inv, page_in_range. cbn. split; [lia | done].
Qed.

Lemma prev_at_first_page st :
  pageNum st ≤ 1 →
  handle ClickPrev st = st ∧ handle (KeyDown "ArrowLeft") st = st.
Proof.
  intros H. cbn [handle]. split.
  - destruct (ready st && has_prevBtn (nodes st)); [ | done].
    destruct (prevBtn_onclick_cases st) as [[_ ->] | [Hlt _]]; [done | lia].
  - destruct (ready st); [ | done].
    destruct (pdf_keydown_cases "ArrowLeft" st)
      as [-> | [(_ & Hlt & _) | (Hk & _)]]; [done | lia | discriminate].
Qed.

Lemma next_at_last_page st :
  totalPages st ≤ pageNum st →
  handle ClickNext st = st ∧ handle (KeyDown "ArrowRight") st = st.
Proof.
  intros H. cbn [handle]. split.
  - destruct (ready st && has_nextBtn (nodes st)); [ | done].
    destruct (nextBtn_onclick_cases st) as [[_ ->] | [Hlt _]]; [done | lia].
  - destruct (ready st); [ | done].
    destruct (pdf_keydown_cases "ArrowRight" st)
      as [-> | [(Hk & _) | (_ & Hlt & _)]]; [done | discriminate | lia].
Qed.

(** C7: whatever document with at least one page is loaded and
    whatever events follow, the page number stays within
    [1, totalPages], where [totalPages] is the page count of the
    document; on page 1 the previous-page button and the left arrow
    change nothing, on the last page the next-page button and the
    right arrow change nothing. *)
Theorem C7_pdf_page_number_stays_in_range (url : string) (d : dom) (w : Z)
    (st0 : state) (es : list event) :
  start (Some url) d w = Started st0 →
  Forall doc_has_pages es →
  page_in_range (run es st0)
  ∧ match pdfDoc (run es st0) with
    | Some doc => totalPages (run es st0) = numPages doc
    | None => True
    end
  ∧ (pageNum (run es st0) = 1 →
     handle ClickPrev (run es st0) = run es st0
     ∧ handle (KeyDown "ArrowLeft") (run es st0) = run es st0)
  ∧ (pageNum (run es st0) = totalPages (run es st0) →
     handle ClickNext (run es st0) = run es st0
     ∧ handle (KeyDown "ArrowRight") (run es st0) = run es st0).
Proof.
  intros Hstart Hes.
  destruct (run_page_inv es st0 Hes (start_page_inv _ _ _ _ Hstart))
    as (Hin & _ & Hdoc).
  split; [done | ]. split; [done | ]. split.
  - intros H. apply prev_at_first_page. lia.
  - intros H. apply next_at_last_page. lia.
Qed.

Lemma C7_pdf_page_number_stays_in_range_witness :
  page_in_range
    (run [DocLoaded three_page_pdf; Settled 0 true; Settled 0 true;
          ClickNext; Settled 0 true; Settled 0 true; KeyDown "ArrowRight";
          ClickNext; KeyDown "ArrowRight"] pdf_loading)
  ∧ handle ClickNext
      (run [DocLoaded three_page_pdf; Settled 0 true; Settled 0 true;
            ClickNext; Settled 0 true; Settled 0 true; KeyDown "ArrowRight";
            ClickNext; KeyDown "ArrowRight"] pdf_loading)
    = run [DocLoaded three_page_pdf; Settled 0 true; Settled 0 true;
           ClickNext; Settled 0 true; Settled 0 true; KeyDown "ArrowRight";
           ClickNext; KeyDown "ArrowRight"] pdf_loading.
Proof.
  destruct (C7_pdf_page_number_stays_in_range "/files/unit1.pdf" all_nodes 1280
              pdf_loading
              [DocLoaded three_page_pdf; Settled 0 true; Settled 0 true;
               ClickNext; Settled 0 true; Settled 0 true; KeyDown "ArrowRight";
               ClickNext; KeyDown "ArrowRight"])
    as (Hin & _ & _ & Hlast).
  - reflexivity.
  - repeat constructor. cbn. lia.
  - split; [exact Hin | ].
    refine (proj1 (Hlast _)). vm_compute. reflexivity.
Defined.

(** *** After a failed rendering *)

Lemma go_to_canvas n st :
  canvas_page (go_to n st) = canvas_page st ∧ fit_width (go_to n st) = fit_width st.
Proof. unfold go_to. by destruct (renderPage_canvas n (set_pageNum n st)) as [-> ->]. Qed.

(** Once stuck, always stuck, and the canvas is never touched again. *)
Lemma handle_stuck e st :
  stuck st →
  stuck (handle e st)
  ∧ canvas_page (handle e st) = canvas_page st
  ∧ fit_width (handle e st) = fit_width st.
Proof.
  intros Hst. destruct e as [d | | k ok | | | key | w | r | ]; cbn [handle].
  - destruct (init_at st); try done.
    unfold doc_loaded. cbn zeta.
    match goal with |- context [renderPage ?n ?s] =>
      assert (stuck s) as Hs by (by destruct Hst);
      rewrite (renderPage_busy n s (proj1 Hs)) end.
    by destruct Hst.
  - by destruct (init_at st).
  - unfold settle. destruct Hst as [Hr Ht]. by rewrite Ht.
  - destruct (ready st && has_prevBtn (nodes st)); [ | done].
    destruct (prevBtn_onclick_cases st) as [[_ ->] | [_ ->]]; [done | ].
    split; [by apply go_to_stuck | apply go_to_canvas].
  - destruct (ready st && has_nextBtn (nodes st)); [ | done].
    destruct (nextBtn_onclick_cases st) as [[_ ->] | [_ ->]]; [done | ].
    split; [by apply go_to_stuck | apply go_to_canvas].
  - destruct (ready st); [ | done].
    destruct (pdf_keydown_cases key st) as [-> | [(_ & _ & ->) | (_ & _ & ->)]];
      [done | | ]; (split; [by apply go_to_stuck | apply go_to_canvas]).
  - assert (stuck (set_env w (fullscreen st) (timers st) st)) as Hs
      by (by destruct Hst).
    match goal with |- context [if ?b then _ else _] => destruct b end; [ | done].
    unfold resize. by rewrite (renderPage_busy _ _ (proj1 Hs)).
  - destruct (ready st && has_fsBtn (nodes st)); [ | done]. by destruct r.
  - unfold timer_fired. destruct (timers st) as [ | m]; [done | ].
    assert (stuck (set_env (innerWidth st) (fullscreen st) m st)) as Hs
      by (by destruct Hst).
    by rewrite (renderPage_busy _ _ (proj1 Hs)).
Qed.

Lemma run_stuck es : ∀ st,
  stuck st →
  stuck (run es st)
  ∧ canvas_page (run es st) = canvas_page st
  ∧ fit_width (run es st) = fit_width st.
Proof.
  induction es as [ | e es IH]; intros st Hst; [done | ].
  change (run (e :: es) st) with (run es (handle e st)).
  destruct (handle_stuck e st Hst) as (Hst' & Hc & Hw).
  destruct (IH _ Hst') as (? & -> & ->). done.
Qed.

(** A rejected promise leaves an exclusive viewer stuck. *)
Lemma settle_rejected_stuck k st :
  exclusive st → is_Some (tasks st !! k) → stuck (settle k false st).
Proof.
  intros [Hlen Hidle] [t Hk]. unfold settle. rewrite Hk.
  destruct (tasks st) as [ | t0 [ | t1 rest]] eqn:Ht; cbn in Hlen;
    [done | | lia].
  destruct k as [ | k]; [ | done].
  destruct (rendering st) eqn:Hr; [ | by specialize (Hidle eq_refl)].
  unfold init_continue, stuck. cbn. rewrite ?Ht.
  destruct (init_at st); cbn; by rewrite ?Hr, ?Ht.
Qed.

(** C10: when the promise awaited by a rendering under way rejects
    (the page cannot be fetched, or drawing it fails), the flag
    [rendering] stays up for the rest of the session: after any further
    events it is still up, no rendering is under way, every call of
    [renderPage] (and so the resize handler and the fullscreen timer's
    call) returns the state as it is, and the canvas keeps what it
    showed. *)
Theorem C10_rejected_render_blocks_later_renders (url : string) (d : dom)
    (w : Z) (st0 : state) (es0 : list event) (k : nat) (es : list event)
    (n : Z) :
  start (Some url) d w = Started st0 →
  is_Some (tasks (run es0 st0) !! k) →
  let st1 := handle (Settled k false) (run es0 st0) in
  rendering (run es st1) = true
  ∧ tasks (run es st1) = []
  ∧ renderPage n (run es st1) = run es st1
  ∧ resize (run es st1) = run es st1
  ∧ canvas_page (run es st1) = canvas_page (run es0 st0)
  ∧ (∀ k' ok, settle k' ok (run es st1) = run es st1).
Proof.
  intros Hstart Htask st1.
  pose proof (run_exclusive es0 st0 (start_exclusive _ _ _ _ Hstart)) as Hex.
  assert (stuck st1) as Hst1 by (by apply settle_rejected_stuck).
  destruct (run_stuck es st1 Hst1) as ([Hr Ht] & Hc & _).
  split; [done | ]. split; [done | ].
  split; [by apply renderPage_busy | ].
  split; [by apply renderPage_busy | ].
  split.
  - rewrite Hc. unfold st1. cbn [handle]. unfold settle.
    destruct (tasks (run es0 st0) !! k); [ | done].
    unfold init_continue. cbn. by destruct (init_at (run es0 st0)).
  - intros k' ok. unfold settle. by rewrite Ht.
Qed.

Lemma C10_rejected_render_blocks_later_renders_witness :
  rendering
    (run [ClickPrev; Resize 800; KeyDown "ArrowRight"]
       (handle (Settled 0 false)
          (run [DocLoaded three_page_pdf; Settled 0 true; Settled 0 true;
                ClickNext] pdf_loading))) = true
  ∧ renderPage 1
      (run [ClickPrev; Resize 800; KeyDown "ArrowRight"]
         (handle (Settled 0 false)
            (run [DocLoaded three_page_pdf; Settled 0 true; Settled 0 true;
                  ClickNext] pdf_loading)))
    = run [ClickPrev; Resize 800; KeyDown "ArrowRight"]
        (handle (Settled 0 false)
           (run [DocLoaded three_page_pdf; Settled 0 true; Settled 0 true;
                 ClickNext] pdf_loading)).
Proof.
  destruct (C10_rejected_render_blocks_later_renders "/files/unit1.pdf"
              all_nodes 1280 pdf_loading
              [DocLoaded three_page_pdf; Settled 0 true; Settled 0 true; ClickNext]
              0 [ClickPrev; Resize 800; KeyDown "ArrowRight"] 1)
    as (Hr & _ & Hrender & _).
  - reflexivity.
  - vm_compute. eexists. reflexivity.
  - split; [exact Hr | exact Hrender].
Defined.

(** *** Navigation while a rendering is under way *)

(** C3: the guard of [renderPage] does drop the call made while the
    rendering of page 2 is under way, but the click that made the call
    has already moved the page number.  With three pages, page 1 shown
    and [next] clicked twice in a row, the second click takes
    [pageNum] from 2 to 3 while the only rendering is still that of
    page 2; when it ends the counter reads 3/3 over a canvas that
    shows page 2.  The right-arrow key does the same. *)
Theorem C3_navigation_during_render_changes_page_number :
  rendering pdf_busy = true
  ∧ nextBtn_disabled pdf_busy = false
  ∧ pageNum pdf_busy = 2
  ∧ tasks pdf_busy = [ {| task_num := 2; task_at := AwaitGetPage |} ]
  ∧ pageNum (handle ClickNext pdf_busy) = 3
  ∧ pageNum (handle (KeyDown "ArrowRight") pdf_busy) = 3
  ∧ handle ClickNext pdf_busy ≠ pdf_busy
  ∧ tasks (handle ClickNext pdf_busy)
    = [ {| task_num := 2; task_at := AwaitGetPage |} ]
  ∧ canvas_page (run [ClickNext; Settled 0 true; Settled 0 true] pdf_busy) = Some 2
  ∧ pageCountEl (run [ClickNext; Settled 0 true; Settled 0 true] pdf_busy) = "3/3"
  ∧ rendering (run [ClickNext; Settled 0 true; Settled 0 true] pdf_busy) = false.
Proof.
  repeat apply conj; try (vm_compute; reflexivity).
  intros H. apply (f_equal pageNum) in H. vm_compute in H. discriminate.
Qed.

End PdfViewerFacts.

(** * Further properties *)

(** ** Slide player: the view, repeated clicks, other keys, the empty deck *)
Section SlidePlayerMore.
Import SlidePlayer Scenarios.

Lemma render_render st : render (render st) = render st.
Proof. reflexivity. Qed.

Lemma handle_rendered e st : render st = st → render (handle e st) = handle e st.
Proof.
  intros Hst. destruct e as [ | | key]; cbn [handle]; try reflexivity.
  destruct (keydown_cases key st) as [-> | [-> | ->]]; [reflexivity .. | done].
Qed.

Lemma run_rendered es : ∀ st, render st = st → render (run es st) = run es st.
Proof.
  induction es as [ | e es IH]; intros st Hst; [done | ].
  change (run (e :: es) st) with (run es (handle e st)).
  by apply IH, handle_rendered.
Qed.

Lemma rendered_view st :
  render st = st →
  prevBtn_disabled st = bool_decide (idx st = 0)
  ∧ nextBtn_disabled st = bool_decide (idx st = total (slide st) - 1)
  ∧ countEl st = pretty (idx st + 1) +:+ "/" +:+ pretty (total (slide st))
  ∧ titleEl st = or_empty (np_title (normalizePage (page_at (slide st) (idx st))))
  ∧ contentEl st
    = or_empty (np_content (normalizePage (page_at (slide st) (idx st)))).
Proof.
  intros H.
  split; [transitivity (prevBtn_disabled (render st)); [by rewrite H | done] | ].
  split; [transitivity (nextBtn_disabled (render st)); [by rewrite H | done] | ].
  split; [transitivity (countEl (render st)); [by rewrite H | done] | ].
  split; [transitivity (titleEl (render st)); [by rewrite H | done] | ].
  transitivity (contentEl (render st)); [by rewrite H | done].
Qed.

Lemma session_view sd es :
  let st := run es (render (fresh sd)) in
  slide st = sd
  ∧ render st = st
  ∧ titleEl st = or_empty (np_title (normalizePage (page_at sd (idx st))))
  ∧ contentEl st = or_empty (np_content (normalizePage (page_at sd (idx st)))).
Proof.
  cbn zeta.
  pose proof (run_rendered es (render (fresh sd)) eq_refl) as Hr.
  pose proof (run_slide es (render (fresh sd))) as Hs. cbn [render slide fresh] in Hs.
  destruct (rendered_view _ Hr) as (_ & _ & _ & Ht & Hc).
  rewrite Hs in Ht, Hc. done.
Qed.

(** X1: at every point of a session the nodes show the current page:
    the state is its own rendering, so the two buttons are disabled
    exactly on the first and on the last page, the counter reads
    idx+1/total, and title and content are those of the normalised
    page at the index. *)
Theorem slide_view_follows_index (sd : slide_data) (es : list event) :
  let st := run es (render (fresh sd)) in
  st = render st
  ∧ prevBtn_disabled st = bool_decide (idx st = 0)
  ∧ nextBtn_disabled st = bool_decide (idx st = total sd - 1)
  ∧ countEl st = pretty (idx st + 1) +:+ "/" +:+ pretty (total sd)
  ∧ titleEl st = or_empty (np_title (normalizePage (page_at sd (idx st))))
  ∧ contentEl st = or_empty (np_content (normalizePage (page_at sd (idx st)))).
Proof.
  cbn zeta.
  destruct (session_view sd es) as (Hs & Hr & _).
  destruct (rendered_view _ Hr) as (H1 & H2 & H3 & H4 & H5).
  rewrite Hs in H2, H3, H4, H5. done.
Qed.

Lemma run_next_n n : ∀ st,
  in_range st →
  idx (run (replicate n ClickNext) st)
  = Z.min (idx st + Z.of_nat n) (total (slide st) - 1)
  ∧ slide (run (replicate n ClickNext) st) = slide st.
Proof.
  induction n as [ | n IH]; intros st Hin.
  - cbn. unfold in_range in Hin. split; [lia | done].
  - change (run (replicate (S n) ClickNext) st)
      with (run (replicate n ClickNext) (next st)).
    assert (0 < total (slide st)) as Hpos by (unfold in_range in Hin; lia).
    destruct (IH (next st) (next_in_range st Hpos Hin)) as [-> ->].
    rewrite (next_step st Hin). unfold in_range in Hin.
    split; [ | done]. cbn [next render slide set_idx].
    case_bool_decide; lia.
Qed.

Lemma run_prev_n n : ∀ st,
  in_range st →
  idx (run (replicate n ClickPrev) st) = Z.max 0 (idx st - Z.of_nat n).
Proof.
  induction n as [ | n IH]; intros st Hin.
  - cbn. unfold in_range in Hin. lia.
  - change (run (replicate (S n) ClickPrev) st)
      with (run (replicate n ClickPrev) (prev st)).
    assert (0 < total (slide st)) as Hpos by (unfold in_range in Hin; lia).
    rewrite (IH (prev st) (prev_in_range st Hpos Hin)).
    rewrite (prev_step st Hin). unfold in_range in Hin.
    case_bool_decide; lia.
Qed.

(** X2: on a non-empty deck, [n] clicks on next from the start land on
    page min(n, last), and [m] clicks on previous after that land on
    max(0, min(n, last) - m). *)
Theorem slide_repeated_clicks (sd : slide_data) (n m : nat) :
  pages sd ≠ [] →
  idx (run (replicate n ClickNext) (render (fresh sd)))
  = Z.min (Z.of_nat n) (total sd - 1)
  ∧ idx (run (replicate n ClickNext ++ replicate m ClickPrev) (render (fresh sd)))
    = Z.max 0 (Z.min (Z.of_nat n) (total sd - 1) - Z.of_nat m).
Proof.
  intros Hne. pose proof (total_pos sd Hne) as Hpos.
  assert (in_range (render (fresh sd))) as Hin
    by (unfold in_range; cbn; lia).
  destruct (run_next_n n _ Hin) as [Hn Hs]. cbn [render fresh idx slide] in Hn.
  rewrite Z.add_0_l in Hn. split; [exact Hn | ].
  unfold run. rewrite foldl_app.
  change (idx (run (replicate m ClickPrev)
                 (run (replicate n ClickNext) (render (fresh sd))))
          = Z.max 0 (Z.min (Z.of_nat n) (total sd - 1) - Z.of_nat m)).
  rewrite run_prev_n, Hn; [done | ].
  apply run_in_range; [exact Hpos | exact Hin].
Qed.

Lemma slide_repeated_clicks_witness :
  idx (run (replicate 5 ClickNext) (render (fresh three_pages))) = 2
  ∧ idx (run (replicate 5 ClickNext ++ replicate 1 ClickPrev)
           (render (fresh three_pages))) = 1.
Proof.
  exact (slide_repeated_clicks three_pages 5 1 ltac:(discriminate)).
Defined.

(** X3: away from the ends the two buttons undo each other: [next]
    followed by [prev] (below the last page) and [prev] followed by
    [next] (above the first page) give back the state, rendered. *)
Theorem slide_next_prev_undo (st : state) :
  in_range st →
  (idx st < total (slide st) - 1 → prev (next st) = render st)
  ∧ (0 < idx st → next (prev st) = render st).
Proof.
  intros [Hlo Hhi]. split; intros H; unfold next, prev; cbn.
  - rewrite Z.min_r, Z.max_r by lia.
    replace (idx st + 1 - 1) with (idx st) by lia. reflexivity.
  - rewrite Z.max_r, Z.min_r by lia.
    replace (idx st - 1 + 1) with (idx st) by lia. reflexivity.
Qed.

Lemma slide_next_prev_undo_witness :
  prev (next three_pages_start) = render three_pages_start
  ∧ next (prev (next three_pages_start)) = render (next three_pages_start).
Proof.
  split.
  - refine (proj1 (slide_next_prev_undo three_pages_start _) _).
    + vm_compute. split; discriminate.
    + vm_compute. reflexivity.
  - refine (proj2 (slide_next_prev_undo (next three_pages_start) _) _).
    + vm_compute. split; discriminate.
    + vm_compute. reflexivity.
Defined.

(** X4: a key other than the two arrows, Escape included, changes
    nothing. *)
Theorem slide_other_keys_do_nothing (key : string) (st : state) :
  key ≠ "ArrowLeft" → key ≠ "ArrowRight" → handle (KeyDown key) st = st.
Proof.
  intros Hl Hr. cbn [handle]. unfold keydown.
  destruct (String.eqb_spec key "ArrowLeft"); [done | ].
  destruct (String.eqb_spec key "ArrowRight"); done.
Qed.

Lemma slide_other_keys_do_nothing_witness :
  handle (KeyDown "Escape") three_pages_start = three_pages_start.
Proof.
  apply (slide_other_keys_do_nothing "Escape" three_pages_start); discriminate.
Defined.

Lemma empty_deck_step e st :
  pages (slide st) = [] → (idx st = 0 ∨ idx st = -1) →
  idx (handle e st) = 0 ∨ idx (handle e st) = -1.
Proof.
  intros Hp Hi.
  assert (total (slide st) = 0) as Ht by (unfold total; by rewrite Hp).
  assert (idx (prev st) = 0 ∨ idx (prev st) = -1) as Hprev
    by (unfold prev; cbn; lia).
  assert (idx (next st) = 0 ∨ idx (next st) = -1) as Hnext
    by (unfold next; cbn; lia).
  destruct e as [ | | key]; cbn [handle]; [done | done | ].
  by destruct (keydown_cases key st) as [-> | [-> | ->]].
Qed.

(** X5: a deck without pages never fails: whatever is clicked or
    pressed, the index is 0 or -1, the title shown is the placeholder
    "Page" with an empty content, and [next] always leads to -1,
    [prev] to 0. *)
Theorem slide_empty_deck (sd : slide_data) (es : list event) :
  pages sd = [] →
  let st := run es (render (fresh sd)) in
  (idx st = 0 ∨ idx st = -1)
  ∧ titleEl st = "Page" ∧ contentEl st = ""
  ∧ idx (next st) = -1 ∧ idx (prev st) = 0.
Proof.
  intros Hp. cbn zeta.
  assert (∀ st, pages (slide st) = [] → (idx st = 0 ∨ idx st = -1) →
            idx (run es st) = 0 ∨ idx (run es st) = -1) as Hrun.
  { induction es as [ | e es IH]; intros st Hs Hi; [done | ].
    change (run (e :: es) st) with (run es (handle e st)).
    apply IH; [by rewrite handle_slide | by apply empty_deck_step]. }
  specialize (Hrun (render (fresh sd)) Hp (or_introl eq_refl)).
  destruct (session_view sd es) as (Hs & _ & -> & ->).
  assert (∀ i, page_at sd i = None) as Hnone.
  { intros i. unfold page_at. rewrite Hp. by case_bool_decide. }
  rewrite Hnone. split; [done | ]. split; [done | ]. split; [done | ].
  unfold next, prev. cbn. rewrite Hs. unfold total. rewrite Hp. cbn.
  destruct Hrun as [-> | ->]; done.
Qed.

Lemma slide_empty_deck_witness :
  titleEl (run [ClickNext; KeyDown "ArrowLeft"; ClickNext] (render (fresh empty_deck)))
  = "Page"
  ∧ idx (next (run [ClickNext; KeyDown "ArrowLeft"; ClickNext]
                 (render (fresh empty_deck)))) = -1.
Proof.
  destruct (slide_empty_deck empty_deck
              [ClickNext; KeyDown "ArrowLeft"; ClickNext] eq_refl)
    as (_ & Ht & _ & Hn & _).
  split; [exact Ht | exact Hn].
Defined.

End SlidePlayerMore.

(** ** Game board: the view, the cards, errors, requests, payouts *)
Section GameBoardMore.
Import GameBoard GameView Scenarios.

Lemma closeModalMarkRevealed_synced st :
  scoreAEl st = pretty (scoreA st) → scoreBEl st = pretty (scoreB st) →
  synced (closeModalMarkRevealed st).
Proof.
  intros HA HB.
  destruct (closeModalMarkRevealed_spec st)
    as (_ & _ & _ & Hgrid & Hgame & _ & HelA & HelB & _).
  destruct (closeModalMarkRevealed_scores st) as [HsA HsB].
  unfold synced. by rewrite Hgrid, Hgame, HelA, HelB, HsA, HsB.
Qed.

Lemma award_synced team p st : synced (award team p st).
Proof.
  unfold award. apply closeModalMarkRevealed_synced;
    by destruct (String.eqb team "A"), (String.eqb team "B").
Qed.

Lemma openModalFor_frame i st :
  let st' := state_of (openModalFor i st) in
  game st' = game st ∧ grid st' = grid st ∧ revealed st' = revealed st
  ∧ scoreA st' = scoreA st ∧ scoreB st' = scoreB st
  ∧ scoreAEl st' = scoreAEl st ∧ scoreBEl st' = scoreBEl st
  ∧ sent st' = sent st ∧ gameId st' = gameId st
  ∧ currentIndex st' = Some i.
Proof.
  cbn zeta. unfold openModalFor. cbn.
  destruct (questions (game st) !! i) as [item | ]; cbn; [ | done].
  by repeat match goal with |- context [if ?b then _ else _] => destruct b end.
Qed.

Lemma handle_synced e st : synced st → synced (state_of (handle e st)).
Proof.
  intros (Hg & HA & HB). destruct e as [i | | | | | | [ | ] | | ok]; cbn [handle state_of].
  - destruct (card_clickable st i); [ | done].
    destruct (openModalFor_frame i st) as (E1 & E2 & E3 & E4 & E5 & E6 & E7 & _).
    unfold synced. by rewrite E1, E2, E3, E4, E5, E6, E7.
  - unfold aCorrect_click, correct_click.
    destruct (current_question st); [apply award_synced | done].
  - apply award_synced.
  - unfold bCorrect_click, correct_click.
    destruct (current_question st); [apply award_synced | done].
  - apply award_synced.
  - by apply closeModalMarkRevealed_synced.
  - done.
  - done.
  - done.
  - by destruct ok.
Qed.

Lemma run_synced es : ∀ st, synced st → synced (run es st).
Proof.
  induction es as [ | e es IH]; intros st Hst; [done | ].
  change (run (e :: es) st) with (run es (state_of (handle e st))).
  by apply IH, handle_synced.
Qed.

Lemma start_synced g id sc : synced (renderGrid (renderScores (fresh g id sc))).
Proof. done. Qed.

Lemma synced_clickable st i :
  synced st →
  card_clickable st i
  = bool_decide (i < length (questions (game st)))%nat && negb (isRev (revealed st) i).
Proof.
  intros (Hg & _). unfold card_clickable. rewrite Hg, list_lookup_imap.
  destruct (questions (game st) !! i) as [item | ] eqn:Hi; cbn.
  - apply lookup_lt_Some in Hi. by rewrite bool_decide_eq_true_2.
  - apply lookup_ge_None in Hi. rewrite bool_decide_eq_false_2; [done | lia].
Qed.



(** X7: a revealed card cannot be opened again: in a session, a click
    on the card of a revealed question, or on a card that does not
    exist, changes nothing. *)
Theorem game_revealed_card_is_dead (g : game_data) (id : string)
    (sc : option scores_data) (es : list event) (i : nat) :
  let st := run es (renderGrid (renderScores (fresh g id sc))) in
  isRev (revealed st) i = true ∨ (length (questions g) ≤ i)%nat →
  handle (ClickCard i) st = Done st.
Proof.
  cbn zeta. intros H.
  pose proof (run_synced es _ (start_synced g id sc)) as Hs.
  pose proof (run_game es (renderGrid (renderScores (fresh g id sc)))) as Hgame.
  cbn [game renderGrid renderScores set_grid set_score_els fresh] in Hgame.
  cbn [handle]. rewrite (synced_clickable _ i Hs), Hgame.
  destruct H as [-> | H]; [by rewrite andb_false_r | ].
  rewrite bool_decide_eq_false_2; [done | lia].
Qed.

Lemma game_revealed_card_is_dead_witness :
  handle (ClickCard 0) both_answered = Done both_answered.
Proof.
  apply (game_revealed_card_is_dead quiz "7" None
           [ClickCard 0; ClickACorrect; ClickCard 1; ClickBCorrect] 0).
  left. vm_compute. reflexivity.
Defined.

(** X8: in a session the only handler that can throw is a
    correct-answer handler run while no question is current; every
    other click, and every click on a card the browser delivers, runs
    to its end.  A handler that throws leaves the state as it was. *)
Theorem game_only_blind_correct_click_throws (g : game_data) (id : string)
    (sc : option scores_data) (es : list event) (e : event) :
  let st := run es (renderGrid (renderScores (fresh g id sc))) in
  (threw (handle e st) = true
   ↔ (e = ClickACorrect ∨ e = ClickBCorrect) ∧ currentIndex st = None)
  ∧ (threw (handle e st) = true → state_of (handle e st) = st).
Proof.
  cbn zeta.
  set (st := run es (renderGrid (renderScores (fresh g id sc)))).
  assert (board_inv st) as (Hlen & Hcur & _).
  { apply run_inv. by apply (init_inv g id sc _ eq_refl). }
  assert (∀ team, threw (correct_click team st) = true ↔ currentIndex st = None)
    as Hcorrect.
  { intros team. pose proof (correct_click_safe_iff team st) as Hiff.
    destruct (threw (correct_click team st)) eqn:Ht.
    - split; [ | done]. intros _.
      destruct (currentIndex st) as [i | ] eqn:Hi; [ | done].
      assert (false = true) as Hf; [ | done].
      symmetry. apply Hiff. exists i. split; [done | by apply Hcur].
    - split; [done | ]. intros Hn.
      destruct (proj1 Hiff eq_refl) as (i & Hi & _). congruence. }
  assert (∀ team, threw (correct_click team st) = true →
            state_of (correct_click team st) = st) as Hsame.
  { intros team. unfold correct_click. by destruct (current_question st). }
  destruct e as [i | | | | | | c | | ok]; cbn [handle threw state_of];
    try (split; [split; [done | by intros [[? | ?] _]] | done]).
  - destruct (card_clickable st i) eqn:Hc;
      [ | cbn [threw state_of]; split; [split; [done | by intros [[? | ?] _]] | done]].
    unfold card_clickable in Hc.
    destruct (grid st !! i) as [c | ] eqn:Hg; [ | done].
    apply lookup_lt_Some in Hg. rewrite Hlen in Hg.
    apply lookup_lt_is_Some in Hg as [item Hitem].
    unfold openModalFor. cbn. fold st. rewrite Hitem.
    repeat match goal with |- context [if ?b then _ else _] => destruct b end;
      cbn; (split; [split; [done | by intros [[? | ?] _]] | done]).
  - split; [ | apply Hsame]. unfold aCorrect_click. rewrite Hcorrect.
    split; [by intros; split; [left | ] | by intros [_ ?]].
  - split; [ | apply Hsame]. unfold bCorrect_click. rewrite Hcorrect.
    split; [by intros; split; [right | ] | by intros [_ ?]].
Qed.

Lemma game_only_blind_correct_click_throws_witness :
  state_of (handle ClickBCorrect both_answered) = both_answered.
Proof.
  refine (proj2 (game_only_blind_correct_click_throws quiz "7" None
                   [ClickCard 0; ClickACorrect; ClickCard 1; ClickBCorrect]
                   ClickBCorrect) _).
  vm_compute. reflexivity.
Defined.

(** *** The requests *)

Lemma closeModalMarkRevealed_gameId st :
  gameId (closeModalMarkRevealed st) = gameId st.
Proof. apply closeModalMarkRevealed_spec. Qed.

(** The scores, the game id and the requests after an event: either
    all three are as before, or one request with the new scores was
    added. *)
Lemma handle_posts e st :
  let st' := state_of (handle e st) in
  gameId st' = gameId st
  ∧ ((scoreA st' = scoreA st ∧ scoreB st' = scoreB st ∧ sent st' = sent st)
     ∨ sent st'
       = (sent st ++ [scores_request (gameId st) (scoreA st') (scoreB st')])%list).
Proof.
  cbn zeta.
  assert (∀ team p,
            gameId (award team p st) = gameId st
            ∧ sent (award team p st)
              = (sent st ++ [scores_request (gameId st) (scoreA (award team p st))
                               (scoreB (award team p st))])%list) as Haward.
  { intros team p. unfold award, closeModalMarkRevealed.
    destruct (String.eqb team "A"), (String.eqb team "B"); cbn;
      destruct (currentIndex st); split; reflexivity. }
  assert (∀ team,
            gameId (state_of (correct_click team st)) = gameId st
            ∧ ((scoreA (state_of (correct_click team st)) = scoreA st
                ∧ scoreB (state_of (correct_click team st)) = scoreB st
                ∧ sent (state_of (correct_click team st)) = sent st)
               ∨ sent (state_of (correct_click team st))
                 = (sent st ++ [scores_request (gameId st)
                      (scoreA (state_of (correct_click team st)))
                      (scoreB (state_of (correct_click team st)))])%list))
    as Hcorrect.
  { intros team. unfold correct_click.
    destruct (current_question st) as [item | ]; cbn [state_of].
    - destruct (Haward team (qn_points item)) as [-> ->]. split; [done | by right].
    - split; [done | by left]. }
  destruct e as [i | | | | | | [ | ] | | ok]; cbn [handle state_of].
  - destruct (card_clickable st i); [ | by split; [ | left]].
    destruct (openModalFor_frame i st) as (_ & _ & _ & -> & -> & _ & _ & -> & -> & _).
    by split; [ | left].
  - apply Hcorrect.
  - unfold aWrong_click. destruct (Haward "A" 0) as [-> ->].
    split; [done | by right].
  - apply Hcorrect.
  - unfold bWrong_click. destruct (Haward "B" 0) as [-> ->].
    split; [done | by right].
  - unfold skipBtn_click.
    destruct (closeModalMarkRevealed_spec st) as (_ & _ & _ & _ & _ & -> & _ & _ & ->).
    destruct (closeModalMarkRevealed_scores st) as [-> ->].
    by split; [ | left].
  - split; [done | by right].
  - by split; [ | left].
  - by split; [ | left].
  - destruct ok; by split; [ | left].
Qed.

(** X9: the server is told every change of the scores: at every point
    of a session the two scores are those of the last request sent, or
    the scores embedded in the page while no request has been sent; and
    every request is a POST of JSON to the one URL of this game. *)
Theorem game_last_request_has_current_scores (g : game_data) (id : string)
    (sc : option scores_data) (es : list event) :
  let st := run es (renderGrid (renderScores (fresh g id sc))) in
  last_posted (initial_score sc sd_scoreA) (initial_score sc sd_scoreB) st
  = (scoreA st, scoreB st)
  ∧ Forall (λ r, req_url r = "/api/games/" +:+ encodeURIComponent id +:+ "/scores"
                 ∧ req_method r = "POST"
                 ∧ req_content_type r = "application/json") (sent st).
Proof.
  cbn zeta.
  set (a0 := initial_score sc sd_scoreA). set (b0 := initial_score sc sd_scoreB).
  set (ok := λ r, req_url r = "/api/games/" +:+ encodeURIComponent id +:+ "/scores"
                  ∧ req_method r = "POST"
                  ∧ req_content_type r = "application/json").
  assert (∀ st, gameId st = id → last_posted a0 b0 st = (scoreA st, scoreB st) →
            Forall ok (sent st) →
            gameId (run es st) = id
            ∧ last_posted a0 b0 (run es st) = (scoreA (run es st), scoreB (run es st))
            ∧ Forall ok (sent (run es st))) as Hrun.
  { induction es as [ | e es IH]; intros st Hid Hlast Hall; [done | ].
    change (run (e :: es) st) with (run es (state_of (handle e st))).
    destruct (handle_posts e st) as (Hid' & [(HA & HB & Hs) | Hs]).
    - apply IH; [congruence | | by rewrite Hs].
      unfold last_posted in *. by rewrite Hs, HA, HB.
    - apply IH; [congruence | | ].
      + unfold last_posted. by rewrite Hs, last_snoc.
      + rewrite Hs. apply Forall_app. split; [done | ].
        apply Forall_singleton. unfold ok. by rewrite Hid. }
  destruct (Hrun (renderGrid (renderScores (fresh g id sc)))) as (_ & H1 & H2); done.
Qed.

(** *** What a question can pay *)

Lemma isRev_insert_ne (r : gmap nat bool) i j :
  i ≠ j → isRev (<[i := true]> r) j = isRev r j.
Proof. intros H. unfold isRev. by rewrite lookup_insert_ne. Qed.

Lemma points_from_insert_before (r : gmap nat bool) i qs : ∀ k,
  (i < k)%nat → points_from (<[i := true]> r) k qs = points_from r k qs.
Proof.
  induction qs as [ | q qs IH]; intros k Hk; [done | ].
  cbn [points_from]. rewrite isRev_insert_ne by lia. rewrite IH by lia. done.
Qed.

Lemma points_from_insert (r : gmap nat bool) qs : ∀ k j q,
  qs !! j = Some q → isRev r (k + j) = false →
  points_from (<[(k + j)%nat := true]> r) k qs = points_from r k qs + qn_points q.
Proof.
  induction qs as [ | q0 qs IH]; intros k j q Hj Hrev; [done | ].
  destruct j as [ | j]; cbn [points_from].
  - injection Hj as ->. rewrite Nat.add_0_r in *.
    rewrite isRev_insert, Hrev, points_from_insert_before by lia. lia.
  - cbn in Hj. rewrite isRev_insert_ne by lia.
    replace (k + S j)%nat with (S k + j)%nat in * by lia.
    rewrite (IH (S k) j q Hj Hrev). lia.
Qed.

Lemma points_from_empty qs : ∀ k, points_from ∅ k qs = 0.
Proof.
  induction qs as [ | q qs IH]; intros k; [done | ].
  cbn [points_from]. by rewrite isRev_empty, IH.
Qed.

Lemma points_from_le (r : gmap nat bool) qs : ∀ k,
  Forall (λ q, 0 ≤ qn_points q) qs →
  0 ≤ points_from r k qs ≤ foldr (λ q acc, qn_points q + acc) 0 qs.
Proof.
  induction qs as [ | q qs IH]; intros k Hq; [cbn; lia | ].
  apply Forall_cons in Hq as [Hq Hqs]. specialize (IH (S k) Hqs).
  cbn [points_from foldr]. destruct (isRev r k); lia.
Qed.

Lemma closeModalMarkRevealed_points st :
  Forall (λ q, 0 ≤ qn_points q) (questions (game st)) →
  (∀ i, currentIndex st = Some i →
        index_valid st i ∧ isRev (revealed st) i = false) →
  revealed_points (closeModalMarkRevealed st)
  = revealed_points st
    + match current_question st with Some q => qn_points q | None => 0 end.
Proof.
  intros Hq Hcur. unfold revealed_points, current_question.
  destruct (closeModalMarkRevealed_spec st) as (_ & _ & -> & _ & -> & _).
  destruct (currentIndex st) as [i | ] eqn:Hi; [ | lia].
  destruct (Hcur i eq_refl) as [Hv Hr].
  apply lookup_lt_is_Some in Hv as [q Hqi]. rewrite Hqi.
  by apply (points_from_insert (revealed st) (questions (game st)) 0 i q).
Qed.

Lemma award_game team p st : game (award team p st) = game st.
Proof.
  unfold award. rewrite (proj1 (proj2 (proj2 (proj2 (proj2
    (closeModalMarkRevealed_spec _)))))).
  by destruct (String.eqb team "A"), (String.eqb team "B").
Qed.

Lemma award_revealed_points team p st :
  Forall (λ q, 0 ≤ qn_points q) (questions (game st)) →
  (∀ i, currentIndex st = Some i →
        index_valid st i ∧ isRev (revealed st) i = false) →
  revealed_points (award team p st)
  = revealed_points st
    + match current_question st with Some q => qn_points q | None => 0 end.
Proof.
  intros Hq Hcur. unfold award. rewrite closeModalMarkRevealed_points.
  - by destruct (String.eqb team "A"), (String.eqb team "B").
  - by destruct (String.eqb team "A"), (String.eqb team "B").
  - by destruct (String.eqb team "A"), (String.eqb team "B").
Qed.

(** An award that the current question covers keeps the invariant: as
    long as [base] and all the questions together stay a safe integer,
    the addition is exact. *)
Lemma award_payout base team p st :
  Forall (λ q, 0 ≤ qn_points q) (questions (game st)) →
  (team = "A" ∨ team = "B") →
  0 ≤ p →
  p ≤ match current_question st with Some q => qn_points q | None => 0 end →
  base + total_points (game st) ≤ 2 ^ 53 →
  payout_inv base st → payout_inv base (award team p st).
Proof.
  intros Hq Hteam Hp0 Hp Hb (Hs & Hcur & HA & HB & Hsum).
  pose proof (award_revealed_points team p st Hq Hcur) as Hrp.
  assert (revealed_points (award team p st) ≤ total_points (game st)) as Htot.
  { unfold revealed_points, total_points. rewrite award_game.
    by apply points_from_le. }
  assert (∀ x, 0 ≤ x → x ≤ 2 ^ 53 → safe_int x = true) as Hsafe.
  { intros x H0 H1. unfold safe_int. apply Z.leb_le. lia. }
  split; [apply award_synced | ]. split.
  { intros i Hi. unfold award in Hi.
    by rewrite (proj1 (proj2 (closeModalMarkRevealed_spec _))) in Hi. }
  rewrite award_scoreA, award_scoreB, Hrp.
  destruct Hteam as [-> | ->]; cbn [String.eqb Ascii.eqb Bool.eqb];
    rewrite js_add_safe by (apply Hsafe; lia); lia.
Qed.

Lemma current_question_nonneg st :
  Forall (λ q, 0 ≤ qn_points q) (questions (game st)) →
  0 ≤ match current_question st with Some q => qn_points q | None => 0 end.
Proof.
  intros Hq. unfold current_question.
  destruct (currentIndex st) as [i | ]; [ | done].
  destruct (questions (game st) !! i) as [q | ] eqn:Hi; [ | done].
  rewrite Forall_forall in Hq. apply Hq. by apply list_elem_of_lookup_2 in Hi.
Qed.

Lemma handle_payout base e st :
  0 ≤ base →
  Forall (λ q, 0 ≤ qn_points q) (questions (game st)) →
  base + total_points (game st) ≤ 2 ^ 53 →
  payout_inv base st → payout_inv base (state_of (handle e st)).
Proof.
  intros Hbase Hq Hb Hinv. pose proof Hinv as (Hs & Hcur & HA & HB & Hsum).
  pose proof (current_question_nonneg st Hq) as Hnn.
  destruct e as [i | | | | | | [ | ] | | ok]; cbn [handle state_of].
  - destruct (card_clickable st i) eqn:Hc; [ | done].
    rewrite (synced_clickable st i Hs) in Hc.
    apply andb_true_iff in Hc as [Hlt Hrev].
    apply bool_decide_eq_true_1 in Hlt. apply negb_true_iff in Hrev.
    destruct (openModalFor_frame i st)
      as (E1 & E2 & E3 & E4 & E5 & E6 & E7 & _ & _ & E10).
    split; [ | split].
    + unfold synced. by rewrite E1, E2, E3, E4, E5, E6, E7.
    + intros j. rewrite E10. intros [= <-]. unfold index_valid.
      by rewrite E1, E3.
    + unfold revealed_points. by rewrite E1, E3, E4, E5.
  - unfold aCorrect_click, correct_click.
    destruct (current_question st) as [q | ] eqn:Hcq; [ | done].
    apply award_payout; [done | by left | done | by rewrite Hcq | done | done].
  - apply award_payout; [done | by left | done | done | done | done].
  - unfold bCorrect_click, correct_click.
    destruct (current_question st) as [q | ] eqn:Hcq; [ | done].
    apply award_payout; [done | by right | done | by rewrite Hcq | done | done].
  - apply award_payout; [done | by right | done | done | done | done].
  - unfold skipBtn_click. destruct Hs as (_ & HelA & HelB).
    split; [by apply closeModalMarkRevealed_synced | ]. split.
    + intros i Hi.
      by rewrite (proj1 (proj2 (closeModalMarkRevealed_spec _))) in Hi.
    + rewrite closeModalMarkRevealed_points by done.
      destruct (closeModalMarkRevealed_scores st) as [-> ->]. lia.
  - split; [done | ]. split.
    + intros i Hi. cbn in Hi. destruct (Hcur i Hi) as [Hv _].
      split; [done | ]. cbn. by rewrite delete_all_keys, isRev_empty.
    + unfold revealed_points. cbn.
      rewrite delete_all_keys, points_from_empty. lia.
  - done.
  - destruct Hs as (Hg & HelA & HelB). done.
  - by destruct ok.
Qed.

(** Where the sums leave the safe integers a point is lost or made up:
    from 2^53 an award of 1 changes nothing and an award of 3 adds 4. *)
Lemma js_add_rounds :
  js_add 9007199254740992 1 = 9007199254740992
  ∧ js_add 9007199254740992 2 = 9007199254740994
  ∧ js_add 9007199254740992 3 = 9007199254740996
  ∧ js_add (-9007199254740992) (-1) = -9007199254740992
  ∧ js_add 18014398509481984 2 = 18014398509481984
  ∧ js_add 18014398509481984 3 = 18014398509481988.
Proof. vm_compute. repeat split; reflexivity. Qed.

(** X10: a question pays at most once.  When no question has a
    negative value, the embedded scores are not negative, and the
    embedded scores and the values of all questions together are a safe
    integer (at most 2^53, so that every addition of the script is
    exact), no score is negative and the two scores together never
    exceed the embedded scores plus the values of the questions
    revealed so far, hence never the embedded scores plus the values of
    all questions. *)
Theorem game_scores_bounded_by_revealed (g : game_data) (id : string)
    (sc : option scores_data) (es : list event) :
  Forall (λ q, 0 ≤ qn_points q) (questions g) →
  0 ≤ initial_score sc sd_scoreA → 0 ≤ initial_score sc sd_scoreB →
  initial_score sc sd_scoreA + initial_score sc sd_scoreB + total_points g ≤ 2 ^ 53 →
  let st := run es (renderGrid (renderScores (fresh g id sc))) in
  0 ≤ scoreA st ∧ 0 ≤ scoreB st
  ∧ scoreA st + scoreB st
    ≤ initial_score sc sd_scoreA + initial_score sc sd_scoreB + revealed_points st
  ∧ revealed_points st ≤ total_points g.
Proof.
  intros Hq HA HB Hb. cbn zeta.
  set (base := initial_score sc sd_scoreA + initial_score sc sd_scoreB) in *.
  assert (∀ st, game st = g → payout_inv base st →
            game (run es st) = g ∧ payout_inv base (run es st)) as Hrun.
  { induction es as [ | e es IH]; intros st Hg Hinv; [done | ].
    change (run (e :: es) st) with (run es (state_of (handle e st))).
    apply IH; [by rewrite handle_game | ].
    apply handle_payout; [unfold base; lia | by rewrite Hg | by rewrite Hg | done]. }
  destruct (Hrun (renderGrid (renderScores (fresh g id sc))))
    as (Hg & _ & _ & H0A & H0B & Hsum).
  - done.
  - split; [apply start_synced | ]. split; [done | ].
    split; [exact HA | ]. split; [exact HB | ].
    unfold revealed_points. cbn. rewrite points_from_empty. unfold base. lia.
  - split; [exact H0A | ]. split; [exact H0B | ].
    split; [exact Hsum | ]. unfold revealed_points, total_points. rewrite Hg.
    by apply points_from_le.
Qed.

Lemma game_scores_bounded_by_revealed_witness :
  0 ≤ scoreA both_answered ∧ 0 ≤ scoreB both_answered
  ∧ scoreA both_answered + scoreB both_answered
    ≤ initial_score None sd_scoreA + initial_score None sd_scoreB
      + revealed_points both_answered
  ∧ revealed_points both_answered ≤ total_points quiz.
Proof.
  apply (game_scores_bounded_by_revealed quiz "7" None
           [ClickCard 0; ClickACorrect; ClickCard 1; ClickBCorrect]).
  - repeat constructor; cbn; lia.
  - vm_compute. discriminate.
  - vm_compute. discriminate.
  - vm_compute. discriminate.
Defined.

(** *** The revealed flags *)

Lemma handle_revealed_cases e st :
  let st' := state_of (handle e st) in
  revealed st' = revealed st
  ∨ (∃ j, currentIndex st = Some j ∧ revealed st' = <[j := true]> (revealed st))
  ∨ (is_confirmed_reset e = true ∧ revealed st' = ∅).
Proof.
  cbn zeta.
  assert (∀ s, currentIndex s = currentIndex st → revealed s = revealed st →
            revealed (closeModalMarkRevealed s) = revealed st
            ∨ (∃ j, currentIndex st = Some j
                    ∧ revealed (closeModalMarkRevealed s) = <[j := true]> (revealed st)))
    as Hclose.
  { intros s Hc Hr.
    destruct (closeModalMarkRevealed_spec s) as (_ & _ & -> & _).
    rewrite Hc, Hr. destruct (currentIndex st) as [j | ]; [right | by left].
    by exists j. }
  assert (∀ team p,
            revealed (award team p st) = revealed st
            ∨ (∃ j, currentIndex st = Some j
                    ∧ revealed (award team p st) = <[j := true]> (revealed st)))
    as Haward.
  { intros team p. unfold award. apply Hclose;
      by destruct (String.eqb team "A"), (String.eqb team "B"). }
  destruct e as [i | | | | | | [ | ] | | ok]; cbn [handle state_of].
  - destruct (card_clickable st i); [ | by left].
    destruct (openModalFor_frame i st) as (_ & _ & -> & _). by left.
  - unfold aCorrect_click, correct_click.
    destruct (current_question st); [ | by left].
    destruct (Haward "A" (qn_points q)) as [H | H]; [by left | by right; left].
  - destruct (Haward "A" 0) as [H | H]; [by left | by right; left].
  - unfold bCorrect_click, correct_click.
    destruct (current_question st); [ | by left].
    destruct (Haward "B" (qn_points q)) as [H | H]; [by left | by right; left].
  - destruct (Haward "B" 0) as [H | H]; [by left | by right; left].
  - destruct (Hclose st eq_refl eq_refl) as [H | H]; [by left | by right; left].
  - right; right. split; [done | ]. cbn. apply delete_all_keys.
  - by left.
  - by left.
  - destruct ok; by left.
Qed.

Lemma run_keeps_revealed es i : ∀ st,
  isRev (revealed st) i = true →
  Forall (λ e, is_confirmed_reset e = false) es →
  isRev (revealed (run es st)) i = true.
Proof.
  induction es as [ | e es IH]; intros st Hrev Hes; [done | ].
  apply Forall_cons in Hes as [He Hes].
  change (run (e :: es) st) with (run es (state_of (handle e st))).
  apply IH; [ | done].
  destruct (handle_revealed_cases e st) as [-> | [(k & Hk & ->) | [Hr _]]].
  - done.
  - destruct (decide (k = i)) as [<- | Hne];
      [apply isRev_insert | by rewrite isRev_insert_ne].
  - congruence.
Qed.

(** X11: a revealed question stays revealed until a reset is
    confirmed, whatever else happens; a confirmed reset clears every
    flag; and in a session only indices of questions are ever marked
    revealed. *)
Theorem game_revealed_until_reset (g : game_data) (id : string)
    (sc : option scores_data) (es es' : list event) (i : nat) :
  let st := run es (renderGrid (renderScores (fresh g id sc))) in
  (isRev (revealed st) i = true → (i < length (questions g))%nat)
  ∧ (isRev (revealed st) i = true →
     Forall (λ e, is_confirmed_reset e = false) es' →
     isRev (revealed (run es' st)) i = true)
  ∧ isRev (revealed (state_of (handle (ClickReset true) st))) i = false.
Proof.
  cbn zeta. set (st := run es (renderGrid (renderScores (fresh g id sc)))).
  split; [ | split].
  - assert (∀ s, board_inv s → game s = g →
              (∀ j, isRev (revealed s) j = true → (j < length (questions g))%nat) →
              ∀ j, isRev (revealed (run es s)) j = true →
                   (j < length (questions g))%nat) as Hrun.
    { induction es as [ | e es0 IH]; intros s Hinv Hg Hval; [done | ].
      change (run (e :: es0) s) with (run es0 (state_of (handle e s))).
      apply IH; [by apply handle_inv | by rewrite handle_game | ].
      intros j. destruct (handle_revealed_cases e s) as [-> | [(k & Hk & ->) | [_ ->]]].
      - apply Hval.
      - destruct (decide (k = j)) as [<- | Hne].
        + intros _. destruct Hinv as (_ & Hcur & _).
          specialize (Hcur k Hk). unfold index_valid in Hcur. by rewrite Hg in Hcur.
        + rewrite isRev_insert_ne by done. apply Hval.
      - by rewrite isRev_empty. }
    apply (Hrun (renderGrid (renderScores (fresh g id sc)))).
    + by apply (init_inv g id sc _ eq_refl).
    + done.
    + intros j. cbn. by rewrite isRev_empty.
  - apply run_keeps_revealed.
  - cbn. by rewrite delete_all_keys, isRev_empty.
Qed.

Lemma game_revealed_until_reset_witness :
  (0 < length (questions quiz))%nat
  ∧ isRev (revealed (run [ClickCard 1; ClickBackdrop; ClickReset false; ClickSkip]
                       (run [ClickCard 0; ClickAWrong]
                          (renderGrid (renderScores (fresh quiz "7" None)))))) 0
    = true.
Proof.
  destruct (game_revealed_until_reset quiz "7" None [ClickCard 0; ClickAWrong]
              [ClickCard 1; ClickBackdrop; ClickReset false; ClickSkip] 0%nat)
    as (Hvalid & Hstays & _).
  split.
  - apply Hvalid. vm_compute. reflexivity.
  - apply Hstays; [vm_compute; reflexivity | repeat constructor].
Defined.

(** *** The URL of the scores *)

Lemma unreserved_not_delimiter c : unreserved c = true → path_delimiter c = false.
Proof.
  intros Hu. destruct (path_delimiter c) eqn:Hd; [ | done].
  unfold path_delimiter in Hd. cbn [existsb] in Hd.
  repeat (apply orb_true_iff in Hd as [Hd | Hd];
          [apply Ascii.eqb_eq in Hd; subst c; vm_compute in Hu; discriminate | ]).
  discriminate.
Qed.

Lemma hex_digit_unreserved n : unreserved (hex_digit n) = true.
Proof.
  unfold hex_digit. generalize (N.to_nat n). intros m.
  do 16 (destruct m as [ | m]; [vm_compute; reflexivity | ]).
  vm_compute. reflexivity.
Qed.

Lemma encodeURIComponent_no_delimiter s :
  string_forall (λ c, negb (path_delimiter c)) (encodeURIComponent s) = true.
Proof.
  induction s as [ | c s IH]; [done | ].
  cbn [encodeURIComponent]. destruct (unreserved c) eqn:Hu; cbn [string_forall].
  - by rewrite (unreserved_not_delimiter c Hu), IH.
  - rewrite !(unreserved_not_delimiter _ (hex_digit_unreserved _)), IH. done.
Qed.

Lemma hex_digit_inj a b :
  (a < 16)%N → (b < 16)%N → hex_digit a = hex_digit b → a = b.
Proof.
  intros Ha Hb.
  assert (∀ x, (x < 16)%N → ∃ m, (m < 16)%nat ∧ x = N.of_nat m) as Hnat.
  { intros x Hx. exists (N.to_nat x). split; [lia | by rewrite N2Nat.id]. }
  destruct (Hnat a Ha) as (x & Hx & ->). destruct (Hnat b Hb) as (y & Hy & ->).
  clear Ha Hb Hnat.
  do 16 (destruct x as [ | x]; [
    do 16 (destruct y as [ | y]; [
      first [reflexivity | (intros H; vm_compute in H; discriminate H)] | ]); lia | ]).
  lia.
Qed.

Lemma escape_inj c1 c2 :
  hex_digit (N_of_ascii c1 / 16) = hex_digit (N_of_ascii c2 / 16) →
  hex_digit (N_of_ascii c1 mod 16) = hex_digit (N_of_ascii c2 mod 16) →
  c1 = c2.
Proof.
  intros Hhi Hlo.
  pose proof (N_ascii_bounded c1) as B1. pose proof (N_ascii_bounded c2) as B2.
  apply hex_digit_inj in Hhi; [ | apply N.Div0.div_lt_upper_bound; lia ..].
  apply hex_digit_inj in Hlo; [ | apply N.mod_lt; lia ..].
  assert (N_of_ascii c1 = N_of_ascii c2) as Heq.
  { rewrite (N.div_mod (N_of_ascii c1) 16), (N.div_mod (N_of_ascii c2) 16) by lia.
    by rewrite Hhi, Hlo. }
  by rewrite <- (ascii_N_embedding c1), <- (ascii_N_embedding c2), Heq.
Qed.

Lemma encodeURIComponent_inj s1 : ∀ s2,
  encodeURIComponent s1 = encodeURIComponent s2 → s1 = s2.
Proof.
  assert (∀ c, unreserved c = true → c ≠ "%"%char) as Hpct.
  { intros c Hu ->. vm_compute in Hu. discriminate. }
  induction s1 as [ | c1 s1 IH]; intros [ | c2 s2] H; cbn [encodeURIComponent] in H.
  - done.
  - destruct (unreserved c2); discriminate.
  - destruct (unreserved c1); discriminate.
  - destruct (unreserved c1) eqn:H1, (unreserved c2) eqn:H2.
    + injection H as -> H. by rewrite (IH _ H).
    + injection H as Hc _. by destruct (Hpct c1 H1).
    + injection H as Hc _. by destruct (Hpct c2 H2).
    + injection H as Hhi Hlo H. by rewrite (escape_inj _ _ Hhi Hlo), (IH _ H).
Qed.

Lemma string_app_cons x (a c : string) : String x a +:+ c = String x (a +:+ c).
Proof. reflexivity. Qed.

Lemma string_length_app (a c : string) :
  String.length (a +:+ c) = (String.length a + String.length c)%nat.
Proof.
  induction a as [ | x a IH]; [done | ].
  rewrite string_app_cons. cbn [String.length Nat.add]. by rewrite IH.
Qed.

Lemma string_app_inv_tail (a b c : string) : a +:+ c = b +:+ c → a = b.
Proof.
  revert b. induction a as [ | x a IH]; intros [ | y b] H.
  - done.
  - apply (f_equal String.length) in H.
    rewrite (string_length_app (String y b)) in H. cbn [String.length] in H.
    change (String.length (EmptyString +:+ c)) with (String.length c) in H. lia.
  - apply (f_equal String.length) in H.
    rewrite (string_length_app (String x a)) in H. cbn [String.length] in H.
    change (String.length (EmptyString +:+ c)) with (String.length c) in H. lia.
  - rewrite !string_app_cons in H. injection H as -> H. by rewrite (IH _ H).
Qed.

Lemma string_app_inv_head (p a b : string) : p +:+ a = p +:+ b → a = b.
Proof.
  induction p as [ | x p IH]; intros H; [done | ].
  rewrite !string_app_cons in H. injection H as H. by apply IH.
Qed.

(** X12: the game id cannot leave its path segment, and distinct game
    ids post to distinct URLs: the URL of a scores request is
    /api/games/ followed by a segment free of the characters / ? # & =
    and space, followed by /scores, and two ids give the same URL only
    if they are the same id. *)
Theorem game_scores_url_is_safe (id : string) :
  (∀ st : state,
     gameId st = id →
     ∃ r, last (sent (saveScores st)) = Some r
          ∧ req_url r = "/api/games/" +:+ encodeURIComponent id +:+ "/scores"
          ∧ req_scoreA r = scoreA st ∧ req_scoreB r = scoreB st)
  ∧ string_forall (λ c, negb (path_delimiter c)) (encodeURIComponent id) = true
  ∧ (∀ id' sa sb,
       req_url (scores_request id sa sb) = req_url (scores_request id' sa sb) →
       id = id').
Proof.
  split; [ | split].
  - intros st <-. eexists. split; [apply last_snoc | done].
  - apply encodeURIComponent_no_delimiter.
  - intros id' sa sb H. cbn [req_url scores_request] in H.
    apply string_app_inv_head, string_app_inv_tail in H.
    by apply encodeURIComponent_inj.
Qed.

Lemma game_scores_url_is_safe_witness :
  (∃ r, last (sent (saveScores (renderGrid (renderScores (fresh quiz "a/b?c" None)))))
        = Some r
        ∧ req_url r = "/api/games/" +:+ encodeURIComponent "a/b?c" +:+ "/scores"
        ∧ req_scoreA r = 0 ∧ req_scoreB r = 0)
  ∧ encodeURIComponent "a/b?c" = "a%2Fb%3Fc".
Proof.
  split; [ | vm_compute; reflexivity].
  exact (proj1 (game_scores_url_is_safe "a/b?c")
           (renderGrid (renderScores (fresh quiz "a/b?c" None))) eq_refl).
Defined.

End GameBoardMore.

(** ** PDF viewer: the life cycle, the view, complete navigations *)
Section PdfViewerMore.
Import PdfViewer PdfLife Scenarios.

Lemma setButtons_idem st : setButtons (setButtons st) = setButtons st.
Proof. unfold setButtons. cbn. by destruct (nodes st) as [? [] [] [] [] ?]. Qed.

Lemma renderPage_raises num st :
  is_Some (pdfDoc st) → rendering (renderPage num st) = true.
Proof.
  intros Hd. unfold renderPage. rewrite bool_decide_eq_true_2 by done. cbn.
  by destruct (rendering st) eqn:Hr.
Qed.

Lemma renderPage_frame num st :
  let st' := renderPage num st in
  init_at st' = init_at st ∧ pdfDoc st' = pdfDoc st
  ∧ canvas_page st' = canvas_page st ∧ alerts st' = alerts st
  ∧ timers st' = timers st ∧ pageNum st' = pageNum st
  ∧ totalPages st' = totalPages st ∧ fit_width st' = fit_width st
  ∧ innerWidth st' = innerWidth st ∧ fullscreen st' = fullscreen st
  ∧ nodes st' = nodes st.
Proof. cbn zeta. by destruct (renderPage_cases num st) as [-> | [_ ->]]. Qed.

(** A ready viewer that is asked to render is busy afterwards. *)
Lemma renderPage_ready num st :
  init_at st = Ready → is_Some (pdfDoc st) → is_Some (canvas_page st) →
  alerts st = 0%nat →
  phase_facts (renderPage num st).
Proof.
  intros Hi Hd Hc Ha. unfold phase_facts.
  destruct (renderPage_frame num st) as (-> & -> & -> & -> & _).
  rewrite Hi. split; [done | ]. split; [done | ]. split; [done | ].
  by rewrite (renderPage_raises num st Hd).
Qed.

Lemma setButtons_set_init p a st :
  setButtons (set_init p a st) = set_init p a (setButtons st).
Proof. reflexivity. Qed.

Lemma setButtons_set_env w fs tm st :
  setButtons (set_env w fs tm st) = set_env w fs tm (setButtons st).
Proof. reflexivity. Qed.

(** The three ways the only suspended activation can go on. *)
Lemma settle_single st t ok :
  tasks st = [t] →
  settle 0 ok st
  = (if ok then
       match task_at t with
       | AwaitGetPage =>
           set_tasks [ {| task_num := task_num t; task_at := AwaitRender |} ]
             (set_canvas (containerWidth st) (canvas_page st) st)
       | AwaitRender =>
           init_continue true
             (setButtons (set_rendering false (set_tasks []
                (set_canvas (fit_width st) (Some (task_num t)) st))))
       end
     else init_continue false (set_tasks [] st)).
Proof.
  intros Ht. unfold settle. rewrite Ht. cbn [lookup list_lookup].
  destruct ok; [destruct (task_at t) | ]; cbn; by rewrite ?Ht.
Qed.

Lemma ready_Ready st : ready st = true → init_at st = Ready.
Proof. unfold ready. by destruct (init_at st). Qed.

Lemma handle_lifecycle e st : lifecycle_inv st → lifecycle_inv (handle e st).
Proof.
  intros [Hex Hph]. split; [by apply handle_exclusive | ].
  unfold phase_facts in Hph |- *.
  destruct e as [d | | k ok | | | key | w | r | ]; cbn [handle].
  - destruct (init_at st) eqn:Hi; rewrite ?Hi; try done.
    destruct Hph as (Hd & Hr & Ht & Hc & Ha & Htm).
    unfold doc_loaded. cbn zeta.
    match goal with |- context [renderPage ?n ?s] =>
      pose proof (renderPage_raises n s ltac:(by eexists)) as Hup;
      destruct (renderPage_frame n s) as (_ & Hd' & _ & Ha' & Htm' & _);
      assert (tasks (renderPage n s) ≠ []) as Hne end.
    { unfold renderPage. cbn. rewrite Hr, Ht. done. }
    cbn [init_at set_init pdfDoc rendering alerts timers tasks].
    rewrite Hd', Hup, Ha', Htm'. cbn. by rewrite Ha, Htm.
  - destruct (init_at st) eqn:Hi; rewrite ?Hi; try done.
    destruct Hph as (Hd & Hr & Ht & Hc & Ha & Htm).
    cbn. by rewrite Ht, Ha, Htm.
  - destruct (tasks st !! k) as [t | ] eqn:Hk;
      [ | by unfold settle; rewrite Hk].
    destruct Hex as [Hlen Hidle].
    destruct (tasks st) as [ | t0 [ | t1 rest]] eqn:Ht; cbn in Hlen;
      [done | | lia].
    destruct k as [ | k]; [ | done]. injection Hk as ->.
    destruct (rendering st) eqn:Hr; [ | by specialize (Hidle eq_refl)].
    rewrite (settle_single st t ok Ht).
    destruct (init_at st) eqn:Hi.
    + by destruct Hph as (_ & _ & ? & _).
    + destruct Hph as (Hd & _ & Ha & Htm & _).
      destruct ok; [destruct (task_at t) | ].
      * cbn. by rewrite Hi, Hr.
      * unfold init_continue. cbn [init_at setButtons set_view].
        cbn [init_at set_rendering set_tasks set_canvas]. rewrite Hi.
        cbn [init_at set_init]. split; [exact Hd | ].
        split; [eexists; reflexivity | ]. split; [exact Ha | ]. intros _.
        by rewrite setButtons_set_init, setButtons_idem.
      * unfold init_continue. cbn [init_at set_tasks]. rewrite Hi.
        cbn. by rewrite Ha, Htm.
    + destruct Hph as (Hd & Hc & Ha & _).
      destruct ok; [destruct (task_at t) | ].
      * cbn. rewrite Hi, Hr. done.
      * unfold init_continue. cbn [init_at setButtons set_view].
        cbn [init_at set_rendering set_tasks set_canvas]. rewrite Hi.
        cbn [init_at setButtons set_view set_rendering set_tasks set_canvas].
        rewrite Hi.
        split; [exact Hd | ]. split; [eexists; reflexivity | ].
        split; [exact Ha | ]. intros _.
        exact (setButtons_idem (set_rendering false (set_tasks []
                 (set_canvas (fit_width st) (Some (task_num t)) st)))).
      * unfold init_continue. cbn [init_at set_tasks]. rewrite Hi.
        cbn. rewrite Hi, Hr. done.
    + by destruct Hph as (? & _).
  - destruct (ready st) eqn:Hready; [ | exact Hph].
    destruct (has_prevBtn (nodes st)); cbn [andb]; [ | exact Hph].
    apply ready_Ready in Hready as Hi. rewrite Hi in Hph.
    destruct Hph as (Hd & Hc & Ha & Hv).
    destruct (prevBtn_onclick_cases st) as [[_ ->] | [_ ->]]; [by rewrite Hi | ].
    by apply renderPage_ready.
  - destruct (ready st) eqn:Hready; [ | exact Hph].
    destruct (has_nextBtn (nodes st)); cbn [andb]; [ | exact Hph].
    apply ready_Ready in Hready as Hi. rewrite Hi in Hph.
    destruct Hph as (Hd & Hc & Ha & Hv).
    destruct (nextBtn_onclick_cases st) as [[_ ->] | [_ ->]]; [by rewrite Hi | ].
    by apply renderPage_ready.
  - destruct (ready st) eqn:Hready; [ | exact Hph].
    apply ready_Ready in Hready as Hi. rewrite Hi in Hph.
    destruct Hph as (Hd & Hc & Ha & Hv).
    destruct (pdf_keydown_cases key st) as [-> | [(_ & _ & ->) | (_ & _ & ->)]];
      [by rewrite Hi | by apply renderPage_ready ..].
  - change (ready (set_env w (fullscreen st) (timers st) st)) with (ready st).
    destruct (ready st) eqn:Hready.
    + apply ready_Ready in Hready as Hi. rewrite Hi in Hph.
      destruct Hph as (Hd & Hc & Ha & Hv). by apply renderPage_ready.
    + cbn [init_at set_env].
      destruct (init_at st) eqn:Hi; [exact Hph | exact Hph | | exact Hph].
      unfold ready in Hready. by rewrite Hi in Hready.
  - destruct (ready st) eqn:Hready; [ | exact Hph].
    destruct (has_fsBtn (nodes st)); cbn [andb]; [ | exact Hph].
    apply ready_Ready in Hready as Hi. rewrite Hi in Hph.
    destruct Hph as (Hd & Hc & Ha & Hv).
    destruct r; cbn [fsBtn_onclick init_at set_env]; rewrite ?Hi.
    + split; [exact Hd | ]. split; [exact Hc | ]. split; [exact Ha | ].
      intros Hr. rewrite setButtons_set_env. by rewrite (Hv Hr).
    + done.
    + split; [exact Hd | ]. split; [exact Hc | ]. split; [exact Ha | ].
      intros Hr. rewrite setButtons_set_env. by rewrite (Hv Hr).
  - unfold timer_fired.
    destruct (timers st) as [ | m] eqn:Htm; [rewrite Htm; exact Hph | ].
    destruct (init_at st) eqn:Hi.
    + destruct Hph as (_ & _ & _ & _ & _ & ?). congruence.
    + destruct Hph as (_ & _ & _ & ? & _). congruence.
    + destruct Hph as (Hd & Hc & Ha & Hv). by apply renderPage_ready.
    + destruct Hph as (_ & _ & ?). congruence.
Qed.

Lemma run_lifecycle es : ∀ st, lifecycle_inv st → lifecycle_inv (run es st).
Proof.
  induction es as [ | e es IH]; intros st Hinv; [done | ].
  change (run (e :: es) st) with (run es (handle e st)).
  by apply IH, handle_lifecycle.
Qed.

Lemma start_lifecycle url d w st0 :
  start url d w = Started st0 → lifecycle_inv st0.
Proof.
  intros Hs. split; [by apply (start_exclusive url d w) | ].
  unfold start in Hs. destruct url; [ | done]. destruct (has_canvas d); [ | done].
  injection Hs as <-. done.
Qed.

Lemma session_lifecycle url d w st0 es :
  start url d w = Started st0 → lifecycle_inv (run es st0).
Proof. intros H. by apply run_lifecycle, (start_lifecycle url d w). Qed.

(** X13: an idle viewer shows where it is.  In a session, whenever the
    handlers are installed and no rendering is under way, no activation
    is suspended and the nodes that exist agree with the variables: the
    counter reads pageNum/totalPages, the previous-page button is
    disabled exactly on page 1 (or below) and the next-page button
    exactly on the last page (or beyond). *)
Theorem pdf_idle_view_is_current (url : option string) (d : dom) (w : Z)
    (st0 : state) (es : list event) :
  start url d w = Started st0 →
  ready (run es st0) = true →
  rendering (run es st0) = false →
  let st := run es st0 in
  tasks st = []
  ∧ setButtons st = st
  ∧ (has_pageCountEl (nodes st) = true →
     pageCountEl st = pretty (pageNum st) +:+ "/" +:+ pretty (totalPages st))
  ∧ (has_pageMonoEl (nodes st) = true →
     pageMonoEl st = pretty (pageNum st) +:+ " / " +:+ pretty (totalPages st))
  ∧ (has_prevBtn (nodes st) = true → prevBtn_disabled st = (pageNum st <=? 1))
  ∧ (has_nextBtn (nodes st) = true →
     nextBtn_disabled st = (pageNum st >=? totalPages st)).
Proof.
  intros Hstart Hready Hr. cbn zeta.
  destruct (session_lifecycle url d w st0 es Hstart) as [[_ Hidle] Hph].
  unfold phase_facts in Hph. rewrite (ready_Ready _ Hready) in Hph.
  destruct Hph as (_ & _ & _ & Hv). specialize (Hv Hr).
  split; [by apply Hidle | ]. split; [done | ].
  split; [ | split; [ | split]]; intros Hn.
  - transitivity (pageCountEl (setButtons (run es st0))); [by rewrite Hv | ].
    unfold setButtons. cbn. by rewrite Hn.
  - transitivity (pageMonoEl (setButtons (run es st0))); [by rewrite Hv | ].
    unfold setButtons. cbn. by rewrite Hn.
  - transitivity (prevBtn_disabled (setButtons (run es st0))); [by rewrite Hv | ].
    unfold setButtons. cbn. by rewrite Hn.
  - transitivity (nextBtn_disabled (setButtons (run es st0))); [by rewrite Hv | ].
    unfold setButtons. cbn. by rewrite Hn.
Qed.

Lemma pdf_idle_view_is_current_witness :
  pageCountEl
    (run [DocLoaded three_page_pdf; Settled 0 true; Settled 0 true;
          ClickNext; Settled 0 true; Settled 0 true] pdf_loading) = "2/3".
Proof.
  destruct (pdf_idle_view_is_current (Some "/files/unit1.pdf") all_nodes 1280
              pdf_loading
              [DocLoaded three_page_pdf; Settled 0 true; Settled 0 true;
               ClickNext; Settled 0 true; Settled 0 true])
    as (_ & _ & Hc & _).
  - reflexivity.
  - vm_compute. reflexivity.
  - vm_compute. reflexivity.
  - etransitivity; [exact (Hc eq_refl) | vm_compute; reflexivity].
Defined.

(** *** Renderings that run to their end *)

(** One rendering from request to end, on an idle ready viewer. *)
Lemma render_cycle n st :
  init_at st = Ready → is_Some (pdfDoc st) → rendering st = false →
  tasks st = [] →
  let st' := run [Settled 0 true; Settled 0 true] (renderPage n st) in
  st' = setButtons (set_rendering false (set_tasks []
          (set_canvas (containerWidth st) (Some n) st))).
Proof.
  intros Hi Hd Hr Ht. cbn zeta.
  assert (renderPage n st
          = set_tasks [ {| task_num := n; task_at := AwaitGetPage |} ]
              (set_rendering true st)) as ->.
  { unfold renderPage. rewrite bool_decide_eq_true_2, Hr by done. cbn.
    by rewrite Ht. }
  change (run [Settled 0 true; Settled 0 true] ?s)
    with (settle 0 true (settle 0 true s)).
  rewrite (settle_single
             (set_tasks [ {| task_num := n; task_at := AwaitGetPage |} ]
                (set_rendering true st))
             {| task_num := n; task_at := AwaitGetPage |} true eq_refl).
  cbn [task_at task_num].
  match goal with |- settle 0 true ?s = _ =>
    rewrite (settle_single s {| task_num := n; task_at := AwaitRender |} true eq_refl)
  end.
  cbn [task_at task_num]. unfold init_continue.
  cbn [init_at setButtons set_view set_rendering set_tasks set_canvas].
  rewrite Hi. reflexivity.
Qed.

(** X14: a navigation that is left to finish shows the page asked for.
    In a session, on an idle viewer with its handlers installed, a
    click on next (below the last page) followed by the two
    resolutions of its rendering ends on page pageNum+1, drawn at the
    scale computed for the container width min(1100, innerWidth-40)
    ([fit_width] is that [containerWidth], not [canvas.width], which
    the script takes from the scaled viewport), with the flag down, no
    activation left and the counter reading the new page; a click on
    previous (above page 1) does the same for pageNum-1. *)
Theorem pdf_navigation_completes (url : option string) (d : dom) (w : Z)
    (st0 : state) (es : list event) :
  start url d w = Started st0 →
  ready (run es st0) = true →
  rendering (run es st0) = false →
  let st := run es st0 in
  (has_nextBtn (nodes st) = true → pageNum st < totalPages st →
   let st' := run [ClickNext; Settled 0 true; Settled 0 true] st in
   pageNum st' = pageNum st + 1
   ∧ canvas_page st' = Some (pageNum st + 1)
   ∧ fit_width st' = Z.min 1100 (innerWidth st - 40)
   ∧ rendering st' = false ∧ tasks st' = [] ∧ setButtons st' = st')
  ∧ (has_prevBtn (nodes st) = true → 1 < pageNum st →
     let st' := run [ClickPrev; Settled 0 true; Settled 0 true] st in
     pageNum st' = pageNum st - 1
     ∧ canvas_page st' = Some (pageNum st - 1)
     ∧ fit_width st' = Z.min 1100 (innerWidth st - 40)
     ∧ rendering st' = false ∧ tasks st' = [] ∧ setButtons st' = st').
Proof.
  intros Hstart Hready Hr. cbn zeta.
  destruct (session_lifecycle url d w st0 es Hstart) as [[_ Hidle] Hph].
  unfold phase_facts in Hph. pose proof (ready_Ready _ Hready) as Hi.
  rewrite Hi in Hph. destruct Hph as (Hd & _ & _ & _).
  specialize (Hidle Hr). set (st := run es st0) in *.
  assert (∀ n, let st' := run [Settled 0 true; Settled 0 true] (go_to n st) in
            pageNum st' = n ∧ canvas_page st' = Some n
            ∧ fit_width st' = Z.min 1100 (innerWidth st - 40)
            ∧ rendering st' = false ∧ tasks st' = [] ∧ setButtons st' = st')
    as Hgo.
  { intros n. cbn zeta. unfold go_to.
    rewrite (render_cycle n (set_pageNum n st)) by done.
    repeat split. apply setButtons_idem. }
  split.
  - intros Hbtn Hlt.
    change (run [ClickNext; Settled 0 true; Settled 0 true] st)
      with (run [Settled 0 true; Settled 0 true] (handle ClickNext st)).
    cbn [handle]. rewrite Hready, Hbtn. cbn [andb].
    destruct (nextBtn_onclick_cases st) as [[Hge _] | [_ ->]]; [lia | apply Hgo].
  - intros Hbtn Hlt.
    change (run [ClickPrev; Settled 0 true; Settled 0 true] st)
      with (run [Settled 0 true; Settled 0 true] (handle ClickPrev st)).
    cbn [handle]. rewrite Hready, Hbtn. cbn [andb].
    destruct (prevBtn_onclick_cases st) as [[Hge _] | [_ ->]]; [lia | apply Hgo].
Qed.

Lemma pdf_navigation_completes_witness :
  canvas_page
    (run [ClickNext; Settled 0 true; Settled 0 true]
       (run [DocLoaded three_page_pdf; Settled 0 true; Settled 0 true] pdf_loading))
  = Some (pageNum (run [DocLoaded three_page_pdf; Settled 0 true; Settled 0 true]
                     pdf_loading) + 1).
Proof.
  destruct (pdf_navigation_completes (Some "/files/unit1.pdf") all_nodes 1280
              pdf_loading
              [DocLoaded three_page_pdf; Settled 0 true; Settled 0 true])
    as (Hnext & _).
  - reflexivity.
  - vm_compute. reflexivity.
  - vm_compute. reflexivity.
  - refine (proj1 (proj2 (Hnext _ _))); vm_compute; reflexivity.
Defined.

(** X15: a resize while idle redraws the current page at the new
    width, and a fullscreen toggle redraws it when its timer fires.  In
    a session, on an idle viewer with its handlers installed, a resize
    to width [w'] followed by the two resolutions of the rendering
    leaves the page number as it is, with that page drawn at the scale
    computed for the container width min(1100, w'-40) ([fit_width] is
    that [containerWidth], not [canvas.width]); a granted fullscreen
    click followed by its
    timer and the two resolutions flips the fullscreen state, redraws
    the current page and leaves no timer behind that was not there. *)
Theorem pdf_resize_and_fullscreen_redraw (url : option string) (d : dom) (w : Z)
    (st0 : state) (es : list event) (w' : Z) :
  start url d w = Started st0 →
  ready (run es st0) = true →
  rendering (run es st0) = false →
  let st := run es st0 in
  (let st' := run [Resize w'; Settled 0 true; Settled 0 true] st in
   pageNum st' = pageNum st
   ∧ canvas_page st' = Some (pageNum st)
   ∧ fit_width st' = Z.min 1100 (w' - 40)
   ∧ rendering st' = false ∧ tasks st' = [])
  ∧ (has_fsBtn (nodes st) = true →
     let st' := run [ClickFs FsGranted; TimerFired; Settled 0 true; Settled 0 true]
                  st in
     fullscreen st' = negb (fullscreen st)
     ∧ timers st' = timers st
     ∧ pageNum st' = pageNum st
     ∧ canvas_page st' = Some (pageNum st)
     ∧ rendering st' = false ∧ tasks st' = []).
Proof.
  intros Hstart Hready Hr. cbn zeta.
  destruct (session_lifecycle url d w st0 es Hstart) as [[_ Hidle] Hph].
  unfold phase_facts in Hph. pose proof (ready_Ready _ Hready) as Hi.
  rewrite Hi in Hph. destruct Hph as (Hd & _ & _ & _).
  specialize (Hidle Hr). set (st := run es st0) in *.
  split.
  - change (run [Resize w'; Settled 0 true; Settled 0 true] st)
      with (run [Settled 0 true; Settled 0 true] (handle (Resize w') st)).
    cbn [handle].
    change (ready (set_env w' (fullscreen st) (timers st) st)) with (ready st).
    rewrite Hready. unfold resize.
    rewrite (render_cycle _ (set_env w' (fullscreen st) (timers st) st)) by done.
    repeat split.
  - intros Hbtn.
    change (run [ClickFs FsGranted; TimerFired; Settled 0 true; Settled 0 true] st)
      with (run [Settled 0 true; Settled 0 true]
              (handle TimerFired (handle (ClickFs FsGranted) st))).
    cbn [handle]. rewrite Hready, Hbtn. cbn [andb fsBtn_onclick].
    unfold timer_fired. cbn [timers set_env].
    match goal with |- context [renderPage ?n ?s] =>
      rewrite (render_cycle n s) by done end.
    repeat split.
Qed.

Lemma pdf_resize_and_fullscreen_redraw_witness :
  fit_width
    (run [Resize 640; Settled 0 true; Settled 0 true]
       (run [DocLoaded three_page_pdf; Settled 0 true; Settled 0 true] pdf_loading))
  = Z.min 1100 (640 - 40).
Proof.
  destruct (pdf_resize_and_fullscreen_redraw (Some "/files/unit1.pdf") all_nodes
              1280 pdf_loading
              [DocLoaded three_page_pdf; Settled 0 true; Settled 0 true] 640)
    as (Hresize & _).
  - reflexivity.
  - vm_compute. reflexivity.
  - vm_compute. reflexivity.
  - exact (proj1 (proj2 (proj2 Hresize))).
Defined.

(** *** The end of the initialiser *)

Lemma set_env_id st : set_env (innerWidth st) (fullscreen st) (timers st) st = st.
Proof. by destruct st. Qed.

(** After the [catch], an event can only change the window width. *)
Lemma handle_aborted e st :
  lifecycle_inv st → init_at st = Aborted →
  handle e st = set_env (innerWidth (handle e st)) (fullscreen st) (timers st) st.
Proof.
  intros [_ Hph] Hi. unfold phase_facts in Hph. rewrite Hi in Hph.
  destruct Hph as (Ht & _ & Htm).
  assert (ready st = false) as Hnr by (unfold ready; by rewrite Hi).
  destruct e as [d | | k ok | | | key | w | r | ]; cbn [handle];
    rewrite ?Hi, ?Hnr; cbn [andb]; try (symmetry; apply set_env_id).
  - unfold settle. rewrite Ht, lookup_nil. symmetry. apply set_env_id.
  - change (ready (set_env w (fullscreen st) (timers st) st)) with (ready st).
    by rewrite Hnr.
  - assert (timer_fired st = st) as -> by (unfold timer_fired; by rewrite Htm).
    symmetry. apply set_env_id.
Qed.

Lemma run_aborted es : ∀ st,
  lifecycle_inv st → init_at st = Aborted →
  run es st = set_env (innerWidth (run es st)) (fullscreen st) (timers st) st.
Proof.
  induction es as [ | e es IH]; intros st Hinv Hi; [by rewrite set_env_id | ].
  change (run (e :: es) st) with (run es (handle e st)).
  pose proof (handle_aborted e st Hinv Hi) as He.
  pose proof (handle_lifecycle e st Hinv) as Hinv'.
  assert (init_at (handle e st) = Aborted) as Hi' by (by rewrite He).
  rewrite (IH _ Hinv' Hi'). rewrite He at 2 3 4. reflexivity.
Qed.

(** X16: a failed load ends the viewer for good.  In a session, a
    rejection of [getDocument] while the document is loading, and a
    rejection inside the first rendering, both take the initialiser to
    its [catch] with exactly one alert; from then on the handlers are
    never installed: whatever events follow, the state stays as it is
    except for the window width. *)
Theorem pdf_failed_load_is_final (url : option string) (d : dom) (w : Z)
    (st0 : state) (es es' : list event) :
  start url d w = Started st0 →
  let st := run es st0 in
  (init_at st = LoadingDoc →
   init_at (handle DocFailed st) = Aborted ∧ alerts (handle DocFailed st) = 1%nat)
  ∧ (init_at st = FirstRender →
     init_at (handle (Settled 0 false) st) = Aborted
     ∧ alerts (handle (Settled 0 false) st) = 1%nat)
  ∧ (init_at st = Aborted →
     alerts st = 1%nat
     ∧ ready (run es' st) = false
     ∧ run es' st = set_env (innerWidth (run es' st)) (fullscreen st) (timers st) st).
Proof.
  intros Hstart. cbn zeta.
  pose proof (session_lifecycle url d w st0 es Hstart) as Hinv.
  pose proof Hinv as [[Hlen _] Hph]. unfold phase_facts in Hph.
  set (st := run es st0) in *.
  split; [ | split]; intros Hi; rewrite Hi in Hph.
  - destruct Hph as (_ & _ & _ & _ & Ha & _). cbn [handle]. rewrite Hi.
    cbn. by rewrite Ha.
  - destruct Hph as (_ & _ & Ha & _ & Hne). cbn [handle].
    destruct (tasks st) as [ | t [ | t1 rest]] eqn:Ht; cbn in Hlen; [done | | lia].
    rewrite (settle_single st t false Ht). unfold init_continue.
    cbn [init_at set_tasks]. rewrite Hi. cbn. by rewrite Ha.
  - destruct Hph as (_ & Ha & _). split; [done | ].
    pose proof (run_aborted es' st Hinv Hi) as Hrun.
    split; [ | done]. rewrite Hrun. unfold ready. cbn. by rewrite Hi.
Qed.

Lemma pdf_failed_load_is_final_witness :
  init_at (handle DocFailed (run [Resize 900] pdf_loading)) = Aborted
  ∧ alerts (handle DocFailed (run [Resize 900] pdf_loading)) = 1%nat.
Proof.
  refine (proj1 (pdf_failed_load_is_final (Some "/files/unit1.pdf") all_nodes 1280
                   pdf_loading [Resize 900] [] _) _).
  - reflexivity.
  - vm_compute. reflexivity.
Defined.

Lemma handle_keeps_ready e st : init_at st = Ready → init_at (handle e st) = Ready.
Proof.
  intros Hi.
  assert (∀ n s, init_at s = Ready → init_at (renderPage n s) = Ready) as Hrp.
  { intros n s Hs. by rewrite (proj1 (renderPage_frame n s)). }
  destruct e as [d | | k ok | | | key | w | r | ]; cbn [handle]; rewrite ?Hi; try done.
  - unfold settle. destruct (tasks st !! k) as [t | ]; [ | done].
    unfold init_continue. destruct ok; [destruct (task_at t) | ]; cbn; by rewrite Hi.
  - destruct (ready st && has_prevBtn (nodes st)); [ | done].
    destruct (prevBtn_onclick_cases st) as [[_ ->] | [_ ->]]; [done | by apply Hrp].
  - destruct (ready st && has_nextBtn (nodes st)); [ | done].
    destruct (nextBtn_onclick_cases st) as [[_ ->] | [_ ->]]; [done | by apply Hrp].
  - destruct (ready st); [ | done].
    destruct (pdf_keydown_cases key st) as [-> | [(_ & _ & ->) | (_ & _ & ->)]];
      [done | by apply Hrp ..].
  - match goal with |- context [if ?b then _ else _] => destruct b end;
      [by apply Hrp | done].
  - destruct (ready st && has_fsBtn (nodes st)); [ | done]. by destruct r.
  - unfold timer_fired. destruct (timers st); [done | by apply Hrp].
Qed.

(** X17: the handlers are installed only after a first page was drawn,
    and then for good.  In a session, once the initialiser is past its
    [try], a document is loaded, a page is on the canvas, no alert was
    ever raised, and whatever events follow (rejected renderings
    included) the handlers stay installed and no alert is raised. *)
Theorem pdf_ready_is_earned_and_kept (url : option string) (d : dom) (w : Z)
    (st0 : state) (es es' : list event) :
  start url d w = Started st0 →
  ready (run es st0) = true →
  is_Some (pdfDoc (run es st0))
  ∧ is_Some (canvas_page (run es st0))
  ∧ ready (run es' (run es st0)) = true
  ∧ alerts (run es' (run es st0)) = 0%nat.
Proof.
  intros Hstart Hready.
  pose proof (session_lifecycle url d w st0 es Hstart) as Hinv.
  pose proof Hinv as [_ Hph]. unfold phase_facts in Hph.
  pose proof (ready_Ready _ Hready) as Hi. rewrite Hi in Hph.
  destruct Hph as (Hd & Hc & _ & _). split; [done | ]. split; [done | ].
  assert (∀ st, init_at st = Ready → init_at (run es' st) = Ready) as Hkeep.
  { induction es' as [ | e es0 IH]; intros st Hst; [done | ].
    change (run (e :: es0) st) with (run es0 (handle e st)).
    by apply IH, handle_keeps_ready. }
  specialize (Hkeep _ Hi).
  pose proof (run_lifecycle es' _ Hinv) as [_ Hph']. unfold phase_facts in Hph'.
  rewrite Hkeep in Hph'. destruct Hph' as (_ & _ & Ha & _).
  split; [ | done]. unfold ready. by rewrite Hkeep.
Qed.

Lemma pdf_ready_is_earned_and_kept_witness :
  ready (run [ClickNext; Settled 0 false; KeyDown "ArrowLeft"]
           (run [DocLoaded three_page_pdf; Settled 0 true; Settled 0 true]
              pdf_loading)) = true.
Proof.
  refine (proj1 (proj2 (proj2
    (pdf_ready_is_earned_and_kept (Some "/files/unit1.pdf") all_nodes 1280
       pdf_loading [DocLoaded three_page_pdf; Settled 0 true; Settled 0 true]
       [ClickNext; Settled 0 false; KeyDown "ArrowLeft"] _ _)))).
  - reflexivity.
  - vm_compute. reflexivity.
Defined.

(** *** The pages asked for *)

Lemma renderPage_pages_valid n st :
  1 ≤ n ≤ totalPages st → pages_valid st → pages_valid (renderPage n st).
Proof.
  intros Hn (Ht & Hc & Hw).
  destruct (renderPage_cases n st) as [-> | [_ ->]]; [done | ].
  split; [ | done]. cbn. apply Forall_app. split; [done | ].
  by apply Forall_singleton.
Qed.

Lemma init_continue_pages_valid ok st :
  pages_valid st → pages_valid (init_continue ok st).
Proof. unfold init_continue. by destruct (init_at st), ok. Qed.

Lemma settle_pages_valid k ok st : pages_valid st → pages_valid (settle k ok st).
Proof.
  intros (Ht & Hc & Hw). unfold settle.
  destruct (tasks st !! k) as [t | ] eqn:Hk; [ | done].
  assert (1 ≤ task_num t ≤ totalPages st) as Hin.
  { rewrite Forall_forall in Ht. apply Ht. by apply list_elem_of_lookup_2 in Hk. }
  destruct ok; [destruct (task_at t) | ].
  - split; [ | split]; cbn.
    + by apply Forall_insert.
    + done.
    + unfold containerWidth. lia.
  - apply init_continue_pages_valid. split; [ | done]. cbn.
    by apply Forall_delete.
  - apply init_continue_pages_valid. split; [ | done]. cbn.
    by apply Forall_delete.
Qed.

Lemma handle_pages_valid e st :
  doc_has_pages e → page_inv st → lifecycle_inv st →
  pages_valid st → pages_valid (handle e st).
Proof.
  intros He ([Hlo Hhi] & Hload & _) [_ Hph] Hv.
  assert (∀ n, 1 ≤ n ≤ totalPages st → pages_valid (go_to n st)) as Hgo.
  { intros n Hn. by apply renderPage_pages_valid. }
  destruct e as [d | | k ok | | | key | w | r | ]; cbn [handle].
  - destruct (init_at st) eqn:Hi; try done.
    unfold phase_facts in Hph. rewrite Hi in Hph.
    destruct Hph as (_ & _ & Ht & Hc & _). specialize (Hload eq_refl).
    destruct Hv as (_ & _ & Hw). cbn in He.
    unfold doc_loaded. cbn zeta.
    match goal with |- pages_valid (set_init _ _ (renderPage ?n ?s)) =>
      assert (pages_valid (renderPage n s)) as H end; [ | exact H].
    apply renderPage_pages_valid.
    + cbn. lia.
    + split; [ | split]; cbn; [by rewrite Ht | by rewrite Hc | done].
  - by destruct (init_at st).
  - by apply settle_pages_valid.
  - destruct (ready st && has_prevBtn (nodes st)); [ | done].
    destruct (prevBtn_onclick_cases st) as [[_ ->] | [Hlt ->]]; [done | ].
    apply Hgo. lia.
  - destruct (ready st && has_nextBtn (nodes st)); [ | done].
    destruct (nextBtn_onclick_cases st) as [[_ ->] | [Hlt ->]]; [done | ].
    apply Hgo. lia.
  - destruct (ready st); [ | done].
    destruct (pdf_keydown_cases key st) as [-> | [(_ & Hlt & ->) | (_ & Hlt & ->)]];
      [done | apply Hgo; lia ..].
  - match goal with |- context [if ?b then _ else _] => destruct b end; [ | done].
    by apply renderPage_pages_valid.
  - destruct (ready st && has_fsBtn (nodes st)); [ | done]. by destruct r.
  - unfold timer_fired. destruct (timers st); [done | ].
    by apply renderPage_pages_valid.
Qed.

(** X18: only pages that exist are ever asked of the document or drawn.
    In a session in which the document loaded has at least one page,
    every rendering under way is for a page within [1, totalPages], the
    page on the canvas (if any) is within [1, totalPages], and the
    canvas is never fitted to more than 1100. *)
Theorem pdf_only_existing_pages_rendered (url : option string) (d : dom) (w : Z)
    (st0 : state) (es : list event) :
  start url d w = Started st0 →
  Forall doc_has_pages es →
  let st := run es st0 in
  Forall (λ t, 1 ≤ task_num t ≤ totalPages st) (tasks st)
  ∧ match canvas_page st with
    | Some p => 1 ≤ p ≤ totalPages st
    | None => True
    end
  ∧ fit_width st ≤ 1100.
Proof.
  intros Hstart Hes. cbn zeta.
  assert (∀ st, page_inv st → lifecycle_inv st → pages_valid st →
            pages_valid (run es st)) as Hrun.
  { induction es as [ | e es0 IH]; intros st H1 H2 H3; [done | ].
    apply Forall_cons in Hes as [He Hes].
    change (run (e :: es0) st) with (run es0 (handle e st)).
    apply IH; [done | by apply handle_page_inv | by apply handle_lifecycle
               | by apply handle_pages_valid]. }
  apply Hrun.
  - by apply (start_page_inv url d w).
  - by apply (start_lifecycle url d w).
  - unfold start in Hstart. destruct url; [ | done].
    destruct (has_canvas d); [ | done]. injection Hstart as <-.
    split; [ | split]; cbn; [done | done | lia].
Qed.

Lemma pdf_only_existing_pages_rendered_witness :
  Forall (λ t, 1 ≤ task_num t
               ≤ totalPages (run [DocLoaded three_page_pdf; Settled 0 true;
                                  Settled 0 true; ClickNext; ClickNext; ClickNext;
                                  ClickNext] pdf_loading))
    (tasks (run [DocLoaded three_page_pdf; Settled 0 true; Settled 0 true;
                 ClickNext; ClickNext; ClickNext; ClickNext] pdf_loading)).
Proof.
  refine (proj1 (pdf_only_existing_pages_rendered (Some "/files/unit1.pdf")
                   all_nodes 1280 pdf_loading
                   [DocLoaded three_page_pdf; Settled 0 true; Settled 0 true;
                    ClickNext; ClickNext; ClickNext; ClickNext] _ _)).
  - reflexivity.
  - repeat constructor. cbn. lia.
Defined.

End PdfViewerMore.

(** ** The page-wide modal handler *)
Section ModalFacts.
Import ModalHandling.

Lemma on_click_throws e shown :
  throws e = true → ∃ msg, on_click e shown = Threw shown msg.
Proof.
  unfold throws, on_click. destruct (on_element e); cbn.
  - destruct (openBtn e) as [[mo | | ] | ]; try discriminate. by eexists.
  - by eexists.
Qed.

Lemma on_click_done e shown :
  throws e = false → on_click e shown = Done (state_of (on_click e shown)).
Proof.
  unfold throws, on_click. destruct (on_element e); cbn; [ | done].
  by destruct (openBtn e) as [[mo | | ] | ].
Qed.

Lemma on_click_elem e shown m :
  throws e = false →
  m ∈ state_of (on_click e shown) ↔ (m ∈ shown ∨ opens e m) ∧ ¬ closes e m.
Proof.
  unfold throws, on_click, opens, closes.
  destruct (on_element e); cbn; [ | done].
  destruct (openBtn e) as [[mo | | ] | ], (closeBtn e) as [[mc | ] | ],
    (target_modal e) as [mt | ]; cbn; try discriminate; intros _;
    rewrite ?elem_of_difference, ?elem_of_union, ?elem_of_singleton;
    intuition congruence.
Qed.

(** X19: hiding wins over showing, unless the handler throws.  A click
    whose target is no element, or whose open button names something
    that is not a selector, makes the handler throw before it hides
    anything: every modal stays as it was, also one the click would
    have closed.  After any other click a modal is shown exactly if it
    was shown before or the click opens it, and the click does not
    close it (by a close button inside it or by a click on its
    backdrop); so such a click that both opens and closes a modal
    leaves it hidden, and one that matches nothing changes nothing.
    Handling the same click twice is the same as handling it once. *)
Theorem modal_click_hide_wins (e : click) (shown : gset node) :
  (throws e = true → ∃ msg, on_click e shown = Threw shown msg)
  ∧ (throws e = false →
     threw (on_click e shown) = false
     ∧ (∀ m, m ∈ state_of (on_click e shown)
             ↔ (m ∈ shown ∨ opens e m) ∧ ¬ closes e m)
     ∧ (∀ m, opens e m → closes e m → m ∉ state_of (on_click e shown))
     ∧ (openBtn e = None → closeBtn e = None → target_modal e = None →
        on_click e shown = Done shown))
  ∧ on_click e (state_of (on_click e shown)) = on_click e shown.
Proof.
  split; [apply on_click_throws | ]. split.
  - intros Hok. split; [by rewrite on_click_done | ].
    split; [intros m; by apply on_click_elem | ]. split.
    + intros m _ Hc. rewrite on_click_elem by done. tauto.
    + intros H1 H2 H3. unfold throws in Hok. unfold on_click.
      rewrite H1 in *. rewrite H2, H3.
      destruct (on_element e); [done | discriminate].
  - destruct (throws e) eqn:Ht.
    + destruct (on_click_throws e shown Ht) as [msg Hm].
      rewrite Hm. exact Hm.
    + transitivity (Done (state_of (on_click e (state_of (on_click e shown)))));
        [by apply on_click_done | ].
      transitivity (Done (state_of (on_click e shown)));
        [ | symmetry; by apply on_click_done].
      f_equal. apply set_eq. intros m. rewrite !on_click_elem by done. tauto.
Qed.

Lemma modal_click_hide_wins_witness :
  (∃ msg,
     on_click {| on_element := true; openBtn := Some BadSelector;
                 closeBtn := Some (Some 5%nat); target_modal := None |}
       {[ 5%nat ]}
     = Threw {[ 5%nat ]} msg)
  ∧ (3%nat ∉ state_of
       (on_click {| on_element := true; openBtn := Some (Found 3%nat);
                    closeBtn := Some (Some 3%nat); target_modal := None |}
          {[ 5%nat ]}))
  ∧ on_click {| on_element := true; openBtn := None; closeBtn := None;
                target_modal := None |} {[ 5%nat ]}
    = Done {[ 5%nat ]}.
Proof.
  split; [ | split].
  - exact (proj1 (modal_click_hide_wins
             {| on_element := true; openBtn := Some BadSelector;
                closeBtn := Some (Some 5%nat); target_modal := None |}
             {[ 5%nat ]}) eq_refl).
  - refine (proj1 (proj2 (proj2 (proj1 (proj2 (modal_click_hide_wins
              {| on_element := true; openBtn := Some (Found 3%nat);
                 closeBtn := Some (Some 3%nat); target_modal := None |}
              {[ 5%nat ]})) eq_refl))) 3%nat _ _).
    + reflexivity.
    + left. reflexivity.
  - exact (proj2 (proj2 (proj2 (proj1 (proj2 (modal_click_hide_wins
             {| on_element := true; openBtn := None; closeBtn := None;
                target_modal := None |}
             {[ 5%nat ]})) eq_refl))) eq_refl eq_refl eq_refl).
Defined.

End ModalFacts.
